(** * SongStructureMidiInteraction: tick loop, caches and latency push

    A shallow embedding of [src/midi_interface/midi_interaction.py].

    Conventions of the embedding:
    - The loop, its counters, the caches and the calls it makes are
      stated over exact numbers: there a Python float (times, durations,
      tempo) is a rational [Q].  What depends on the rounding of floats,
      the latency block and the generation gateway, is embedded a second
      time over binary64 in the module [Binary64], and the claims about
      them are proved there.
    - Python ints (bar counters, pitches, velocities) are [Z]; the index
      [part_in_song], which only ever counts up from 0, is a [nat].
    - A captured sequence carries a tempo: line 272 writes
      [tempos[0].qpm], which raises [IndexError] on a sequence without
      tempos, a case the embedding of the loop leaves out.
    - A dict is a [gmap]; a cache slot holds [None] (Python [None]) or
      [Some item].  [d[k]] on a missing key raises [KeyError].
    - Exceptions are values of the error monad [res].
    - The transport (MidiHub, captor, players), the generators and the
      magenta helpers [trim_note_sequence] and [add_track_to_sequence]
      are outside the file under study.  Ticks, flag readings and clock
      readings are inputs ([TickEnv]); calls on players and generators
      are recorded in logs; the two magenta helpers are section
      variables.  Logging and the metronome calls are left out. *)

From Stdlib Require Import ZArith QArith Qround Qminmax Lqa Lia List.
From Stdlib Require Floats.
From stdpp Require Import base option list gmap strings.

Set Warnings "-inexact-float".

Local Open Scope Q_scope.

(** ** Exceptions *)

Inductive exn : Type :=
  | IndexError
  | KeyError
  | AttributeError
  | ZeroDivisionError
  | ValueError
  | OverflowError.

Inductive res (A : Type) : Type :=
  | Ok (a : A)
  | Raise (e : exn).
Arguments Ok {A} a.
Arguments Raise {A} e.

#[global] Instance res_ret : MRet res := fun A a => Ok a.
#[global] Instance res_bind : MBind res := fun A B k m =>
  match m with
  | Ok a => k a
  | Raise e => Raise e
  end.

(** [l[i]] for a Python list and a non-negative index. *)
Definition getitem {A : Type} (l : list A) (i : nat) : res A :=
  match l !! i with
  | Some a => Ok a
  | None => Raise IndexError
  end.

(** ** Data *)

(** [Note = namedtuple("Note", ["pitch", "velocity", "start", "end"])] *)
Record Note : Type := mkNote {
  pitch : Z;
  velocity : Z;
  start : Q;
  end_ : Q
}.

(** A note of a [NoteSequence] protobuf. *)
Record SeqNote : Type := mkSeqNote {
  note_pitch : Z;
  note_velocity : Z;
  start_time : Q;
  end_time : Q
}.

(** The attributes of a [NoteSequence] that the file reads or writes;
    [qpm] stands for [tempos[0].qpm]. *)
Record NoteSequence : Type := mkNoteSequence {
  notes : list SeqNote;
  total_time : Q;
  qpm : Q
}.

(** [NoteSequence()] *)
Definition empty_sequence : NoteSequence :=
  {| notes := []; total_time := 0; qpm := 0 |}.

Record GeneratorOptions : Type := mkGeneratorOptions {
  input_sections : list (Q * Q);
  generate_sections : list (Q * Q);
  temperature : Q
}.

Record CacheItem : Type := mkCacheItem {
  sequence : NoteSequence;
  item_response_start_time : Q
}.

(** What the loop reads of a part: [part.name], [part.duration(bars=True)]
    and [part.get_midi_chords()]. *)
Record Part : Type := mkPart {
  name : string;
  duration : Z;
  get_midi_chords : list (list Z)
}.

(** One call of [generator.generate]. *)
Record GenCall : Type := mkGenCall {
  call_gen_index : nat;
  call_input : NoteSequence;
  call_options : GeneratorOptions
}.

(** A generator is opaque and may be stateful: its answer may depend on
    the calls made before. *)
Definition Generator : Type :=
  list GenCall -> NoteSequence -> GeneratorOptions -> NoteSequence.

(** Calls on a playback handle. *)
Inductive PlayerEvent : Type :=
  | StartPlayback (s : NoteSequence)
  | UpdateSequence (s : NoteSequence) (start_time : option Q)
  | StopPlayer.

Inductive Track : Type := Melody | Bass | Drums.

Definition gen_index (tr : Track) : nat :=
  match tr with Melody => 0 | Bass => 1 | Drums => 2 end%nat.

(** ** Module-level functions *)

Definition shift_note (delta_time : Q) (n : SeqNote) : SeqNote :=
  {| note_pitch := note_pitch n;
     note_velocity := note_velocity n;
     start_time := start_time n + delta_time;
     end_time := end_time n + delta_time |}.

(** [adjust_sequence_times]: a copy with every time moved by [delta_time]. *)
Definition adjust_sequence_times (sequence : NoteSequence) (delta_time : Q)
  : NoteSequence :=
  {| notes := map (shift_note delta_time) (notes sequence);
     total_time := total_time sequence + delta_time;
     qpm := qpm sequence |}.

(** [generate_midi_chord(notes, start_time, duration=2, velocity=80)]:
    the fourth field of each tuple receives the duration. *)
Definition generate_midi_chord (notes : list Z) (start_time : Q)
    (duration : Q) (velocity : Z) : list Note :=
  map (fun note => mkNote note velocity start_time duration) notes.

(** [MidiInteraction._temperature] from the control value read. *)
Definition _temperature (val : option Z) : Q :=
  let min_temp := 1 # 10 in
  let max_temp := 2 in
  let default := 1 in
  match val with
  | None => default
  | Some v => min_temp + (inject_Z v / 127) * (max_temp - min_temp)
  end.

(** Python's [a // b] on floats. *)
Definition floordiv (a b : Q) : res Q :=
  if Qeq_bool b 0 then Raise ZeroDivisionError
  else Ok (inject_Z (Qfloor (a / b))).

(** ** The state of [run] *)

(** The three dicts [MELODY_CACHE], [BASS_CACHE], [DRUM_CACHE] of one
    instance. *)
Record Caches : Type := mkCaches {
  MELODY_CACHE : gmap string (option CacheItem);
  BASS_CACHE : gmap string (option CacheItem);
  DRUM_CACHE : gmap string (option CacheItem)
}.

Definition get_cache (tr : Track) (c : Caches) : gmap string (option CacheItem) :=
  match tr with
  | Melody => MELODY_CACHE c
  | Bass => BASS_CACHE c
  | Drums => DRUM_CACHE c
  end.

Definition set_cache (tr : Track) (d : gmap string (option CacheItem))
    (c : Caches) : Caches :=
  match tr with
  | Melody => mkCaches d (BASS_CACHE c) (DRUM_CACHE c)
  | Bass => mkCaches (MELODY_CACHE c) d (DRUM_CACHE c)
  | Drums => mkCaches (MELODY_CACHE c) (BASS_CACHE c) d
  end.

(** The calls received so far by each playback handle, oldest first. *)
Record Players : Type := mkPlayers {
  player_melody : list PlayerEvent;
  player_bass : list PlayerEvent;
  player_chords : list PlayerEvent;
  player_drums : list PlayerEvent
}.

(** The same call on the four handles, in the order melody, bass, chords,
    drums. *)
Definition call_players (m b c d : PlayerEvent) (p : Players) : Players :=
  {| player_melody := player_melody p ++ [m];
     player_bass := player_bass p ++ [b];
     player_chords := player_chords p ++ [c];
     player_drums := player_drums p ++ [d] |}.

(** Local variables of [run] and the instance state it touches. *)
Record LoopState : Type := mkLoopState {
  caches : Caches;
  panic : bool;
  players : Players;
  generator_log : list GenCall;
  last_tick_time : Q;
  response_sequence : NoteSequence;
  response_start_time : Q;
  response_duration : Q;
  part_in_song : nat;
  bars_played : Z;
  bars_played_for_part : Z;
  part_duration : Z
}.

Definition with_caches (c : Caches) (st : LoopState) : LoopState :=
  mkLoopState c (panic st) (players st) (generator_log st) (last_tick_time st)
    (response_sequence st) (response_start_time st) (response_duration st)
    (part_in_song st) (bars_played st) (bars_played_for_part st)
    (part_duration st).

Definition with_generator_log (l : list GenCall) (st : LoopState) : LoopState :=
  mkLoopState (caches st) (panic st) (players st) l (last_tick_time st)
    (response_sequence st) (response_start_time st) (response_duration st)
    (part_in_song st) (bars_played st) (bars_played_for_part st)
    (part_duration st).

Definition with_players (p : Players) (st : LoopState) : LoopState :=
  mkLoopState (caches st) (panic st) p (generator_log st) (last_tick_time st)
    (response_sequence st) (response_start_time st) (response_duration st)
    (part_in_song st) (bars_played st) (bars_played_for_part st)
    (part_duration st).

Definition with_response_start_time (t : Q) (st : LoopState) : LoopState :=
  mkLoopState (caches st) (panic st) (players st) (generator_log st)
    (last_tick_time st) (response_sequence st) t (response_duration st)
    (part_in_song st) (bars_played st) (bars_played_for_part st)
    (part_duration st).

(** What one iteration of [for captured_sequence in self._captor.iterate(...)]
    receives from outside. *)
Record TickEnv : Type := mkTickEnv {
  captured_sequence : NoteSequence;
  (** [self._stop_signal.is_set()] at the head of the iteration *)
  stop_is_set : bool;
  (** the panic callback ran since the previous iteration *)
  panic_received : bool;
  (** control value behind [self._qpm] *)
  tempo_control : option Z;
  (** control value behind [self._temperature], per generation call *)
  temperature_control : Track -> option Z;
  (** [self._captor.start_time] *)
  captor_start_time : Q;
  (** [time()] in the lateness test, then in [push_ticks] *)
  time_check : Q;
  time_push : Q
}.

Inductive Outcome : Type :=
  | Continue (st : LoopState)
  | Break (st : LoopState).

(** [self.CACHE[key].response_start_time = t] *)
Definition set_anchor (cache : gmap string (option CacheItem)) (key : string)
    (t : Q) : res (gmap string (option CacheItem)) :=
  match cache !! key with
  | None => Raise KeyError
  | Some None => Raise AttributeError
  | Some (Some item) => Ok (<[key := Some (mkCacheItem (sequence item) t)]> cache)
  end.

(** [_panic_callback] *)
Definition _panic_callback (st : LoopState) : LoopState :=
  mkLoopState (caches st) true (players st) (generator_log st)
    (last_tick_time st) (response_sequence st) (response_start_time st)
    (response_duration st) (part_in_song st) (bars_played st)
    (bars_played_for_part st) (part_duration st).

(** The callbacks that ran since the previous iteration. *)
Definition deliver_signals (env : TickEnv) (st : LoopState) : LoopState :=
  if panic_received env then _panic_callback st else st.

(** The body of [if self._panic.is_set():]. *)
Definition flush (st : LoopState) : LoopState :=
  let response_sequence := empty_sequence in
  let ev := UpdateSequence response_sequence None in
  mkLoopState (caches st) false (call_players ev ev ev ev (players st))
    (generator_log st) (last_tick_time st) response_sequence
    (response_start_time st) (response_duration st) (part_in_song st)
    (bars_played st) (bars_played_for_part st) (part_duration st).

(** The enumerate loop over the chords of a part: [i] is the index of the
    head of [chords], [notes] the list built so far. *)
Fixpoint chord_loop (i : Z) (chords : list (list Z)) (notes : list Note)
  : list Note :=
  match chords with
  | [] => notes
  | chord :: rest =>
      chord_loop (i + 1)%Z rest
        (notes ++ generate_midi_chord chord (inject_Z i / 2) (1 # 2) 80)
  end.

(** [[Note(note.pitch, note.velocity, note.start + response_start_time,
      note.start + note.end + response_start_time) for note in notes]] *)
Definition retime_notes (response_start_time : Q) (notes : list Note)
  : list Note :=
  map (fun note =>
         mkNote (pitch note) (velocity note)
           (start note + response_start_time)
           (start note + end_ note + response_start_time)) notes.

(** Modelled from the spec: [Structure.duration(bars=True)], the "derived
    total duration in bars" of a structure; the class is not part of the
    file under study.  [run] only logs this value. *)
Definition structure_duration (structure : list Part) : Z :=
  foldr (fun part total => (duration part + total)%Z) 0%Z structure.

(** The value of [response_start_time], the four sequences and the
    caches at a point between line 343 and line 359. *)
Record Response : Type := mkResponse {
  r_start_time : Q;
  r_melody : NoteSequence;
  r_bass : NoteSequence;
  r_chords : NoteSequence;
  r_drums : NoteSequence;
  r_caches : Caches
}.

Section Run.

(** The instance: configuration fixed by the constructor. *)
Variable _sequence_generators : list Generator.
Variable _default_qpm : Q.
Variable STRUCTURE : list Part.

(** magenta's [trim_note_sequence(sequence, start_time, end_time)]. *)
Variable trim_note_sequence : NoteSequence -> Q -> Q -> NoteSequence.
(** magenta's [add_track_to_sequence(note_sequence, instrument, notes)],
    returning the sequence it has extended. *)
Variable add_track_to_sequence : NoteSequence -> Z -> list Note -> NoteSequence.

(** [MidiInteraction._qpm] *)
Definition _qpm (val : option Z) : Q :=
  match val with
  | None => _default_qpm
  | Some v => inject_Z v + 60
  end.

(** [_generate]; the generator call is appended to the log. *)
Definition _generate (temperature_val : option Z) (log : list GenCall)
    (gen_index : nat) (input_sequence : NoteSequence)
    (zero_time response_start_time response_end_time : Q)
  : res (NoteSequence * list GenCall) :=
  let response_start_time := response_start_time - zero_time in
  let response_end_time := response_end_time - zero_time in
  let generator_options :=
    {| input_sections := [(0, response_start_time)];
       generate_sections := [(response_start_time, response_end_time)];
       temperature := _temperature temperature_val |} in
  generator ← getitem _sequence_generators gen_index;
  let input := adjust_sequence_times input_sequence (- zero_time) in
  let response_sequence := generator log input generator_options in
  let log := log ++ [mkGenCall gen_index input generator_options] in
  let response_sequence :=
    trim_note_sequence response_sequence response_start_time response_end_time in
  Ok (adjust_sequence_times response_sequence zero_time, log).

(** One of the three blocks [if self.X_CACHE[part.name]: ... else: ...];
    returns the track's sequence and the value of [response_start_time]
    after the block. *)
Definition lookup_or_generate (tr : Track) (part : Part) (env : TickEnv)
    (captured : NoteSequence) (response_start_time : Q) (st : LoopState)
  : res (NoteSequence * Q * LoopState) :=
  let capture_start_time := captor_start_time env in
  match get_cache tr (caches st) !! name part with
  | None => Raise KeyError
  | Some (Some item) =>
      Ok (sequence item, item_response_start_time item, st)
  | Some None =>
      '(seq, log) ← _generate (temperature_control env tr) (generator_log st)
                      (gen_index tr) captured capture_start_time
                      response_start_time
                      (response_start_time + response_duration st);
      let cache :=
        <[name part := Some (mkCacheItem seq capture_start_time)]>
          (get_cache tr (caches st)) in
      Ok (seq, response_start_time,
          with_caches (set_cache tr cache (caches st))
            (with_generator_log log st))
  end.

(** Lines 336-343: the chord track of a part. *)
Definition build_chord_sequence (part : Part) (response_start_time : Q)
  : NoteSequence :=
  let chord_sequence := empty_sequence in
  let notes := chord_loop 0 (get_midi_chords part) [] in
  let notes := retime_notes response_start_time notes in
  add_track_to_sequence chord_sequence 0 notes.

(** Lines 303-343: the three cache blocks in program order, then the
    chord track.  The result carries the value of [response_start_time]
    that reaches line 345. *)
Definition prepare_response (env : TickEnv) (part : Part)
    (captured : NoteSequence) (st : LoopState) : res (Response * LoopState) :=
  let response_start_time := response_start_time st in
  '(melody_sequence, response_start_time, st) ←
    lookup_or_generate Melody part env captured response_start_time st;
  '(bass_sequence, response_start_time, st) ←
    lookup_or_generate Bass part env captured response_start_time st;
  '(drum_sequence, response_start_time, st) ←
    lookup_or_generate Drums part env captured response_start_time st;
  let chord_sequence := build_chord_sequence part response_start_time in
  Ok (mkResponse response_start_time melody_sequence bass_sequence
        chord_sequence drum_sequence (caches st), st).

(** Lines 345-356. *)
Definition latency_push (env : TickEnv) (part : Part) (tick_duration : Q)
    (r : Response) : res Response :=
  if Qle_bool (tick_duration / 4) (time_check env - r_start_time r) then
    q ← floordiv (time_push env - r_start_time r) tick_duration;
    let push_ticks := q + 1 in
    let response_start_time := r_start_time r + push_ticks * tick_duration in
    let melody_sequence :=
      adjust_sequence_times (r_melody r) (push_ticks * tick_duration) in
    let bass_sequence :=
      adjust_sequence_times (r_bass r) (push_ticks * tick_duration) in
    let chord_sequence :=
      adjust_sequence_times (r_chords r) (push_ticks * tick_duration) in
    let drum_sequence :=
      adjust_sequence_times (r_drums r) (push_ticks * tick_duration) in
    m ← set_anchor (MELODY_CACHE (r_caches r)) (name part) response_start_time;
    b ← set_anchor (BASS_CACHE (r_caches r)) (name part) response_start_time;
    d ← set_anchor (DRUM_CACHE (r_caches r)) (name part) response_start_time;
    Ok (mkResponse response_start_time melody_sequence bass_sequence
          chord_sequence drum_sequence (mkCaches m b d))
  else Ok r.

(** Lines 359-362. *)
Definition dispatch (r : Response) (p : Players) : Players :=
  call_players
    (UpdateSequence (r_melody r) (Some (r_start_time r)))
    (UpdateSequence (r_bass r) (Some (r_start_time r)))
    (UpdateSequence (r_chords r) (Some (r_start_time r)))
    (UpdateSequence (r_drums r) (Some (r_start_time r))) p.

(** Lines 303-362: what a tick does at the start of a part. *)
Definition start_of_part_work (env : TickEnv) (part : Part)
    (captured : NoteSequence) (tick_duration : Q) (st : LoopState)
  : res LoopState :=
  '(r, st) ← prepare_response env part captured st;
  r ← latency_push env part tick_duration r;
  Ok (with_players (dispatch r (players st))
        (with_caches (r_caches r)
           (with_response_start_time (r_start_time r) st))).

(** Lines 259-265. *)
Definition handle_panic (st : LoopState) : LoopState :=
  if panic st then flush st else st.

(** Lines 276-278: the new [part_in_song] and [bars_played_for_part]. *)
Definition advance_part (st : LoopState) : nat * Z :=
  if (part_duration st <? bars_played_for_part st)%Z
  then (S (part_in_song st), 0%Z)
  else (part_in_song st, bars_played_for_part st).

(** [captured_sequence] after [captured_sequence.tempos[0].qpm = self._qpm]. *)
Definition stamp_tempo (env : TickEnv) : NoteSequence :=
  mkNoteSequence (notes (captured_sequence env))
    (total_time (captured_sequence env)) (_qpm (tempo_control env)).

(** Lines 291-297: the locals after the bookkeeping of a tick. *)
Definition bookkeeping (st : LoopState) (tick_time : Q) (part_in_song : nat)
    (bars_played_for_part : Z) (part : Part) : LoopState :=
  let tick_duration := tick_time - last_tick_time st in
  let part_duration := duration part in
  let response_start_time := tick_time in
  let response_duration := inject_Z part_duration * tick_duration in
  mkLoopState (caches st) (panic st) (players st) (generator_log st)
    tick_time (response_sequence st) response_start_time
    response_duration part_in_song (bars_played st + 1)%Z
    (bars_played_for_part + 1)%Z part_duration.

(** The body of the [for] loop, lines 257-362. *)
Definition tick (st0 : LoopState) (env : TickEnv) : res Outcome :=
  if stop_is_set env then Ok (Break st0) else
  let st := handle_panic st0 in
  let tick_time := total_time (captured_sequence env) in
  let captured := stamp_tempo env in
  let tick_duration := tick_time - last_tick_time st in
  let '(part_in_song, bars_played_for_part) := advance_part st in
  if (length STRUCTURE <=? part_in_song)%nat then
    Ok (Break (mkLoopState (caches st) (panic st) (players st)
                 (generator_log st) (last_tick_time st)
                 (response_sequence st) (response_start_time st)
                 (response_duration st) part_in_song (bars_played st)
                 bars_played_for_part (part_duration st)))
  else
  let start_of_part := (bars_played_for_part =? 0)%Z in
  part ← getitem STRUCTURE part_in_song;
  let st := bookkeeping st tick_time part_in_song bars_played_for_part part in
  if negb start_of_part then Ok (Continue st) else
  st ← start_of_part_work env part captured tick_duration st;
  Ok (Continue st).

(** The iterations of the [for] loop over the ticks the captor yields,
    up to the first [break] or exception; the panic callback runs between
    iterations.  [Continue] means that the ticks were used up. *)
Fixpoint iterations (st : LoopState) (ticks : list TickEnv) : res Outcome :=
  match ticks with
  | [] => Ok (Continue st)
  | env :: rest =>
      match tick (deliver_signals env st) env with
      | Ok (Continue st') => iterations st' rest
      | stopped => stopped
      end
  end.

(** The state in which the [for] loop is left. *)
Definition loop (st : LoopState) (ticks : list TickEnv) : res LoopState :=
  o ← iterations st ticks;
  match o with
  | Continue st' => Ok st'
  | Break st' => Ok st'
  end.

(** Lines 217-253: everything before the loop.  [now] is the value of
    [time()] on line 232; [self_caches] are the instance's dicts. *)
Definition run_init (self_caches : Caches) (now : Q) : res LoopState :=
  let last_tick_time := now in
  let response_sequence := empty_sequence in
  let response_start_time := 0 in
  let response_duration := 0 in
  let player := [StartPlayback response_sequence] in
  let part_in_song := 0%nat in
  let bars_played := 0%Z in
  let bars_played_for_part := 0%Z in
  let total_bars := structure_duration STRUCTURE in
  part ← getitem STRUCTURE part_in_song;
  let part_duration := duration part in
  Ok (mkLoopState self_caches false (mkPlayers player player player player)
        [] last_tick_time response_sequence response_start_time
        response_duration part_in_song bars_played bars_played_for_part
        part_duration).

(** Lines 364-367. *)
Definition stop_players (st : LoopState) : LoopState :=
  with_players
    (call_players StopPlayer StopPlayer StopPlayer StopPlayer (players st)) st.

Definition run (self_caches : Caches) (now : Q) (ticks : list TickEnv)
  : res LoopState :=
  st ← run_init self_caches now;
  st ← loop st ticks;
  Ok (stop_players st).

End Run.

(** ** The constructor and Python's attribute lookup *)

(** [{part.name: None for part in self.STRUCTURE}] *)
Definition dict_of_names (structure : list Part) : gmap string (option CacheItem) :=
  foldl (fun d part => <[name part := None]> d) ∅ structure.

Module ObjectModel.

(** Dict objects live in a heap and are reached through references; an
    attribute holds either a list of parts (never mutated by this file)
    or a reference to a dict. *)
Abbreviation loc := nat.
Abbreviation dict := (gmap string (option CacheItem)).
Abbreviation heap := (list dict).

Inductive value : Type :=
  | VList (l : list Part)
  | VRef (l : loc).

Abbreviation namespace := (gmap string value).

(** A dict display or comprehension: a new object. *)
Definition new_dict (d : dict) (h : heap) : loc * heap :=
  (length h, h ++ [d]).

(** Lines 115-118, run once when the class statement is executed: the
    attributes of the class object. *)
Definition class_body (h : heap) : namespace * heap :=
  let cls : namespace := <["STRUCTURE" := VList []]> ∅ in
  let '(l, h) := new_dict ∅ h in
  let cls := <["MELODY_CACHE" := VRef l]> cls in
  let '(l, h) := new_dict ∅ h in
  let cls := <["BASS_CACHE" := VRef l]> cls in
  let '(l, h) := new_dict ∅ h in
  let cls := <["DRUM_CACHE" := VRef l]> cls in
  (cls, h).

(** [self.attr]: the instance's own attributes first, then the class. *)
Definition getattr (cls self : namespace) (attr : string) : res value :=
  match self !! attr with
  | Some v => Ok v
  | None =>
      match cls !! attr with
      | Some v => Ok v
      | None => Raise AttributeError
      end
  end.

Definition as_list (v : value) : list Part :=
  match v with
  | VList l => l
  | VRef _ => []
  end.

(** [[clock_signal, tick_duration].count(None)] *)
Definition count_none {A B : Type} (a : option A) (b : option B) : nat :=
  (match a with Some _ => 0 | None => 1 end)
  + (match b with Some _ => 0 | None => 1 end).

(** Lines 131-136 of [__init__]: the instance's attributes. *)
Definition __init__ (cls : namespace) (structure : list Part)
    (clock_signal : option string) (tick_duration : option Q) (h : heap)
  : res (namespace * heap) :=
  if negb (count_none clock_signal tick_duration =? 1)%nat
  then Raise ValueError
  else
    let self : namespace := <["STRUCTURE" := VList structure]> ∅ in
    s ← getattr cls self "STRUCTURE";
    let '(l, h) := new_dict (dict_of_names (as_list s)) h in
    let self := <["MELODY_CACHE" := VRef l]> self in
    s ← getattr cls self "STRUCTURE";
    let '(l, h) := new_dict (dict_of_names (as_list s)) h in
    let self := <["BASS_CACHE" := VRef l]> self in
    s ← getattr cls self "STRUCTURE";
    let '(l, h) := new_dict (dict_of_names (as_list s)) h in
    let self := <["DRUM_CACHE" := VRef l]> self in
    Ok (self, h).

(** The dict object behind [self.attr]. *)
Definition cache_object (cls self : namespace) (attr : string) : res loc :=
  v ← getattr cls self attr;
  match v with
  | VRef l => Ok l
  | VList _ => Raise AttributeError
  end.

(** [self.attr[key]] *)
Definition cache_getitem (cls self : namespace) (h : heap)
    (attr key : string) : res (option CacheItem) :=
  l ← cache_object cls self attr;
  match h !! l with
  | None => Raise AttributeError
  | Some d =>
      match d !! key with
      | Some x => Ok x
      | None => Raise KeyError
      end
  end.

(** [self.attr[key] = item] *)
Definition cache_setitem (cls self : namespace) (h : heap)
    (attr key : string) (item : option CacheItem) : res heap :=
  l ← cache_object cls self attr;
  match h !! l with
  | None => Raise AttributeError
  | Some d => Ok (<[l := <[key := item]> d]> h)
  end.

(** The three dicts that [run] reaches through [self]. *)
Definition instance_caches (cls self : namespace) (h : heap) : res Caches :=
  m ← cache_object cls self "MELODY_CACHE";
  b ← cache_object cls self "BASS_CACHE";
  d ← cache_object cls self "DRUM_CACHE";
  match h !! m, h !! b, h !! d with
  | Some m, Some b, Some d => Ok (mkCaches m b d)
  | _, _, _ => Raise AttributeError
  end.

End ObjectModel.

(** ** Concrete collaborators and a concrete performance

    Instances of the section variables, used to run the model. *)

(** magenta's [trim_note_sequence]: notes that start in [[start, end_)]
    are kept and cut at [end_]. *)
Definition magenta_trim_note_sequence (s : NoteSequence) (start_time' end_time' : Q)
  : NoteSequence :=
  {| notes :=
       omap (fun n =>
               if Qle_bool start_time' (start_time n)
                  && negb (Qle_bool end_time' (start_time n))
               then Some (mkSeqNote (note_pitch n) (note_velocity n)
                            (start_time n) (Qmin (end_time n) end_time'))
               else None) (notes s);
     total_time := Qmin (total_time s) end_time';
     qpm := qpm s |}.

Definition seq_note_of (n : Note) : SeqNote :=
  mkSeqNote (pitch n) (velocity n) (start n) (end_ n).

(** magenta's [add_track_to_sequence]: one sequence note per tuple, in
    order, and [total_time] raised to the latest end. *)
Definition magenta_add_track_to_sequence (s : NoteSequence) (instrument : Z)
    (ns : list Note) : NoteSequence :=
  {| notes := notes s ++ map seq_note_of ns;
     total_time := foldl (fun t n => Qmax t (end_ n)) (total_time s) ns;
     qpm := qpm s |}.

(** A generator that fills each requested section with one long note and
    one note that starts before the section. *)
Definition drone_generator (p : Z) : Generator :=
  fun log input options =>
    {| notes :=
         flat_map (fun '(a, b) =>
                     [mkSeqNote p 100 a (b + 1); mkSeqNote p 100 (a - 1) b])
           (generate_sections options);
       total_time := total_time input + 8;
       qpm := qpm input |}.

Definition three_generators : list Generator :=
  [drone_generator 72; drone_generator 36; drone_generator 42].

(** [[Part("A", 4 bars, chords=[C, G]), Part("B", 2 bars, chords=[Am])]] *)
Definition structure_AB : list Part :=
  [mkPart "A" 4 [[60; 64; 67]; [55; 59; 62]]%Z;
   mkPart "B" 2 [[57; 60; 64]]%Z].

(** The tick at time [t]: no stop, no panic, no controls, capture started
    at 0, and the clock read [lag] after the tick. *)
Definition plain_tick (t lag : Q) : TickEnv :=
  {| captured_sequence := mkNoteSequence [] t 120;
     stop_is_set := false;
     panic_received := false;
     tempo_control := None;
     temperature_control := fun _ => None;
     captor_start_time := 0;
     time_check := t + lag;
     time_push := t + lag |}.

(** Ticks at 1, 2, 3, ... with [tick_duration = 1.0]. *)
Definition ticks_from (first : Z) (n : nat) (lag : Q) : list TickEnv :=
  map (fun k => plain_tick (inject_Z (first + Z.of_nat k)) lag) (seq 0 n).

Definition caches_AB : Caches :=
  mkCaches (dict_of_names structure_AB) (dict_of_names structure_AB)
    (dict_of_names structure_AB).

(** The state in which an iteration leaves the loop variables. *)
Definition state_of (o : Outcome) : LoopState :=
  match o with
  | Continue st => st
  | Break st => st
  end.

(** [run] on [structure_AB] with the concrete collaborators. *)
Abbreviation tick_AB :=
  (tick three_generators 120 structure_AB magenta_trim_note_sequence
     magenta_add_track_to_sequence).

Abbreviation iterations_AB :=
  (iterations three_generators 120 structure_AB magenta_trim_note_sequence
     magenta_add_track_to_sequence).

(** The state in which [run] enters the loop on [structure_AB] at time 0. *)
Definition start_AB : LoopState :=
  let player := [StartPlayback empty_sequence] in
  mkLoopState caches_AB false (mkPlayers player player player player) []
    0 empty_sequence 0 0 0 0 0 4.

(** The state after an iteration, or the state before it when the
    iteration raised. *)
Definition after (st : LoopState) (r : res Outcome) : LoopState :=
  match r with
  | Ok o => state_of o
  | Raise _ => st
  end.

(** After the first tick of the performance, at time 1, with the clock
    read 0.1 later. *)
Definition first_tick_on_time : TickEnv := plain_tick 1 (1 # 10).

Definition after_first_tick : LoopState :=
  after start_AB (tick_AB start_AB first_tick_on_time).

(** The second tick, with the panic flag set since the first. *)
Definition second_tick : TickEnv := plain_tick 2 (1 # 10).

Definition after_panic_tick : Outcome :=
  match tick_AB (_panic_callback after_first_tick) second_tick with
  | Ok o => o
  | Raise _ => Break start_AB
  end.

(** A state whose caches for "A" hold three different anchors. *)
Definition one_note (p : Z) : NoteSequence :=
  mkNoteSequence [mkSeqNote p 100 0 1] 1 120.





(** A structure in which the name "A" comes back. *)
Definition structure_ABA : list Part :=
  [mkPart "A" 1 [[60; 64; 67]]%Z; mkPart "B" 1 [[57; 60; 64]]%Z;
   mkPart "A" 1 [[60; 64; 67]]%Z].

Abbreviation tick_ABA :=
  (tick three_generators 120 structure_ABA magenta_trim_note_sequence
     magenta_add_track_to_sequence).

Definition start_ABA : LoopState :=
  let player := [StartPlayback empty_sequence] in
  let d := dict_of_names structure_ABA in
  mkLoopState (mkCaches d d d) false (mkPlayers player player player player)
    [] 0 empty_sequence 0 0 0 0 0 1.

Definition ABA_after_1 : LoopState :=
  after start_ABA (tick_ABA start_ABA (plain_tick 1 (1 # 10))).

Definition ABA_after_4 : LoopState :=
  after ABA_after_1
    (iterations three_generators 120 structure_ABA magenta_trim_note_sequence
       magenta_add_track_to_sequence ABA_after_1 (ticks_from 2 3 (1 # 10))).

Definition ABA_after_5 : LoopState :=
  after ABA_after_4 (tick_ABA ABA_after_4 (plain_tick 5 (1 # 10))).

(** Two instances constructed one after the other from the class. *)
Definition built (r : res (gmap string ObjectModel.value
                           * list (gmap string (option CacheItem))))
  : gmap string ObjectModel.value * list (gmap string (option CacheItem)) :=
  match r with
  | Ok x => x
  | Raise _ => (∅, [])
  end.

Definition the_class := ObjectModel.class_body [].

Definition first_instance :=
  built (ObjectModel.__init__ (fst the_class) structure_AB None (Some 1)
           (snd the_class)).

Definition second_instance :=
  built (ObjectModel.__init__ (fst the_class) structure_AB None (Some 1)
           (snd first_instance)).

Definition cached_item : CacheItem := mkCacheItem (one_note 72) 0.

(** The heap after [first.MELODY_CACHE["A"] = cached_item]. *)
Definition heap_after_write : list (gmap string (option CacheItem)) :=
  match ObjectModel.cache_setitem (fst the_class) (fst first_instance)
          (snd second_instance) "MELODY_CACHE" "A" (Some cached_item) with
  | Ok h => h
  | Raise _ => []
  end.

(** ** Statements in the words of the specification *)

(** The chord track as the specification describes it: the chord at
    position [i] sounds from [i * 0.5] to [i * 0.5 + 0.5], everything
    moved by [t], velocity 80. *)
Definition spec_chord_notes (chords : list (list Z)) (t : Q) : list SeqNote :=
  concat
    (imap (fun i chord =>
             map (fun p =>
                    mkSeqNote p 80
                      (inject_Z (Z.of_nat i) * (1 # 2) + t)
                      (inject_Z (Z.of_nat i) * (1 # 2) + (1 # 2) + t))
               chord)
       chords).

(** Equality of sequence notes up to the value of their times. *)
Definition seq_note_equiv (n n' : SeqNote) : Prop :=
  note_pitch n = note_pitch n' /\ note_velocity n = note_velocity n' /\
  start_time n == start_time n' /\ end_time n == end_time n'.

(** The sequence that a response carries for a cached track. *)
Definition r_track (tr : Track) (r : Response) : NoteSequence :=
  match tr with
  | Melody => r_melody r
  | Bass => r_bass r
  | Drums => r_drums r
  end.

(** Everything of the loop state that the cache blocks leave alone. *)
Definition same_locals (st st' : LoopState) : Prop :=
  panic st' = panic st /\ players st' = players st /\
  last_tick_time st' = last_tick_time st /\
  response_sequence st' = response_sequence st /\
  response_start_time st' = response_start_time st /\
  response_duration st' = response_duration st /\
  part_in_song st' = part_in_song st /\
  bars_played st' = bars_played st /\
  bars_played_for_part st' = bars_played_for_part st /\
  part_duration st' = part_duration st.

(** The call that a miss on [tr] sends to the generator. *)
Definition miss_call (tr : Track) (env : TickEnv) (captured : NoteSequence)
    (response_start_time response_duration : Q) : GenCall :=
  let zero := captor_start_time env in
  let a := response_start_time - zero in
  let b := response_start_time + response_duration - zero in
  mkGenCall (gen_index tr) (adjust_sequence_times captured (- zero))
    (mkGeneratorOptions [(0, a)] [(a, b)]
       (_temperature (temperature_control env tr))).

#[global] Instance Track_eq_dec : EqDecision Track.
Proof. solve_decision. Defined.

(** The sequence that a miss stores and returns, given the generator's
    answer to [miss_call]. *)
Definition miss_sequence
    (trim_note_sequence : NoteSequence -> Q -> Q -> NoteSequence)
    (generator : Generator) (log : list GenCall) (tr : Track) (env : TickEnv)
    (captured : NoteSequence) (response_start_time response_duration : Q)
  : NoteSequence :=
  let zero := captor_start_time env in
  let c := miss_call tr env captured response_start_time response_duration in
  adjust_sequence_times
    (trim_note_sequence (generator log (call_input c) (call_options c))
       (response_start_time - zero)
       (response_start_time + response_duration - zero))
    zero.

(** A cache slot is filled. *)
Definition filled (slot : option (option CacheItem)) : Prop :=
  exists item, slot = Some (Some item).

(** [response_start_time] after one cache block: the cached anchor on a
    hit, unchanged on a miss. *)
Definition anchor_after (slot : option (option CacheItem)) (t : Q) : Q :=
  match slot with
  | Some (Some item) => item_response_start_time item
  | _ => t
  end.

(** The generator calls of one cache block. *)
Definition calls_of (slot : option (option CacheItem)) (c : GenCall)
  : list GenCall :=
  match slot with
  | Some (Some _) => []
  | _ => [c]
  end.

(** [push_ticks = floor(elapsed / tick_duration) + 1], with the elapsed
    time read from the clock when [push_ticks] is computed. *)
Definition spec_push_ticks (env : TickEnv) (tick_duration : Q) (r : Response) : Q :=
  inject_Z (Qfloor ((time_push env - r_start_time r) / tick_duration)) + 1.

(** The response is late: the time elapsed since [response_start_time],
    read from the clock in the test, is at least [tick_duration / 4]. *)
Definition late (env : TickEnv) (tick_duration : Q) (r : Response) : Prop :=
  tick_duration / 4 <= time_check env - r_start_time r.

(** A cache whose entry for [key] has its anchor replaced by [t]. *)
Definition reanchored (key : string) (t : Q)
    (cache cache' : gmap string (option CacheItem)) : Prop :=
  exists item,
    cache !! key = Some (Some item)
    /\ cache' = <[key := Some (mkCacheItem (sequence item) t)]> cache.

(** An update without start time: the call made by the panic block (the
    dispatch always gives a start time). *)
Definition is_flush (e : PlayerEvent) : bool :=
  match e with
  | UpdateSequence _ None => true
  | _ => false
  end.

Definition flushes (log : list PlayerEvent) : nat :=
  length (filter (fun e => is_flush e = true) log).

(** Number of flushes received by melody, bass, chords, drums. *)
Definition flush_counts (p : Players) : list nat :=
  [flushes (player_melody p); flushes (player_bass p);
   flushes (player_chords p); flushes (player_drums p)].

(** Every filled slot of [c] is still filled in [c'], with the same
    sequence. *)
Definition keeps_sequences (c c' : Caches) : Prop :=
  forall tr key item,
    get_cache tr c !! key = Some (Some item) ->
    exists item',
      get_cache tr c' !! key = Some (Some item')
      /\ sequence item' = sequence item.

(** Every key of [c] is a key of [c']. *)
Definition keeps_keys (c c' : Caches) : Prop :=
  forall tr key,
    is_Some (get_cache tr c !! key) -> is_Some (get_cache tr c' !! key).

(** The caches have a slot for every part of the structure, as after
    [__init__]. *)
Definition has_keys (structure : list Part) (c : Caches) : Prop :=
  Forall (fun part => forall tr, is_Some (get_cache tr c !! name part))
    structure.

(** Ticks that are not stopped and whose times move forward from [last]. *)
Fixpoint advancing (last : Q) (ticks : list TickEnv) : Prop :=
  match ticks with
  | [] => True
  | env :: rest =>
      stop_is_set env = false
      /\ last < total_time (captured_sequence env)
      /\ advancing (total_time (captured_sequence env)) rest
  end.

(** [part_in_song], [bars_played_for_part] and [part_duration]. *)
Definition counters (st : LoopState) : nat * Z * Z :=
  (part_in_song st, bars_played_for_part st, part_duration st).

(** Lines 276-283 and 297 on the counters alone; [None] when the loop
    is left. *)
Definition count_tick (structure : list Part) (c : nat * Z * Z)
  : option (nat * Z * Z) :=
  let '(i, b, d) := c in
  let '(i, b) := if (d <? b)%Z then (S i, 0%Z) else (i, b) in
  match structure !! i with
  | Some part => Some (i, (b + 1)%Z, duration part)
  | None => None
  end.

Fixpoint count_ticks (structure : list Part) (c : nat * Z * Z) (n : nat)
  : option (nat * Z * Z) :=
  match n with
  | O => Some c
  | S n =>
      match count_tick structure c with
      | Some c' => count_ticks structure c' n
      | None => None
      end
  end.

(** ** Further definitions: accessors of [MidiInteraction] *)

(** [l[i]] for a Python list and any integer: a negative index counts
    from the end. *)
Definition getitem_int {A : Type} (l : list A) (i : Z) : res A :=
  let n := Z.of_nat (length l) in
  if (0 <=? i)%Z then getitem l (Z.to_nat i)
  else if (- n <=? i)%Z then getitem l (Z.to_nat (n + i))
  else Raise IndexError.

(** Python's [a % b] on ints; [Z.modulo] has the same sign convention. *)
Definition py_mod (a b : Z) : res Z :=
  if (b =? 0)%Z then Raise ZeroDivisionError else Ok (a mod b)%Z.

(** [MidiInteraction._sequence_generator]; [control_value] is what the
    hub returns for the generator-select control. *)
Definition _sequence_generator (_sequence_generators : list Generator)
    (control_value : option Z) : res Generator :=
  if (length _sequence_generators =? 1)%nat
  then getitem_int _sequence_generators 0
  else
    let val := control_value in
    let val := match val with None => 0%Z | Some v => v end in
    i ← py_mod val (Z.of_nat (length _sequence_generators));
    getitem_int _sequence_generators i.

(** ** Further definitions: statements about sequences, players, caches *)

(** The four player logs in the order melody, bass, chords, drums. *)
Definition player_logs (p : Players) : list (list PlayerEvent) :=
  [player_melody p; player_bass p; player_chords p; player_drums p].

Definition is_update (e : PlayerEvent) : Prop :=
  match e with
  | UpdateSequence _ _ => True
  | _ => False
  end.

(** Every player log of [p'] is the log of [p] followed by updates. *)
Definition extended_by_updates (p p' : Players) : Prop :=
  Forall2 (fun log log' =>
             exists new, log' = log ++ new /\ Forall is_update new)
    (player_logs p) (player_logs p').

(** For every key the three caches agree: no slot, three empty slots, or
    three entries with one anchor. *)
Definition coherent (c : Caches) : Prop :=
  forall key,
    (forall tr, get_cache tr c !! key = None)
    \/ (forall tr, get_cache tr c !! key = Some None)
    \/ (exists t, forall tr,
          exists item,
            get_cache tr c !! key = Some (Some item)
            /\ item_response_start_time item = t).

(** The ticks a part of non-negative duration keeps [part_in_song]: the
    tick that starts it and one per bar. *)
Definition part_ticks (part : Part) : nat := S (Z.to_nat (duration part)).

(** The ticks taken by the parts before index [i], and by all parts. *)
Definition ticks_before (structure : list Part) (i : nat) : nat :=
  sum_list_with part_ticks (take i structure).

Definition total_ticks (structure : list Part) : nat :=
  sum_list_with part_ticks structure.

(** The counters with which [run] enters the loop. *)
Definition initial_counters (structure : list Part) : nat * Z * Z :=
  (0%nat, 0%Z, match structure with part :: _ => duration part | [] => 0%Z end).

(** ** Further concrete inputs *)

Definition part_A : Part := mkPart "A" 4 [[60; 64; 67]; [55; 59; 62]]%Z.
Definition part_B : Part := mkPart "B" 2 [[57; 60; 64]]%Z.

(** A response for part "A" that starts at 1, with the three slots
    filled. *)
Definition late_response : Response :=
  let d : gmap string (option CacheItem) := <["A" := Some cached_item]> ∅ in
  mkResponse 1 (one_note 72) (one_note 36) empty_sequence (one_note 42)
    (mkCaches d d d).

(** A first tick whose time is the time at which [run] started. *)
Definition repeated_tick : TickEnv := plain_tick 0 (1 # 10).

(** What the cache blocks and the chord block make of [repeated_tick]. *)
Definition prepared_at_repeated_tick : Response * LoopState :=
  match prepare_response three_generators magenta_trim_note_sequence
          magenta_add_track_to_sequence repeated_tick part_A
          (stamp_tempo 120 repeated_tick)
          (bookkeeping (handle_panic start_AB)
             (total_time (captured_sequence repeated_tick))
             (fst (advance_part start_AB)) 0 part_A) with
  | Ok x => x
  | Raise _ => (late_response, start_AB)
  end.

(** * The float arithmetic of the code

    The times of the program are Python floats, that is IEEE 754
    binary64 numbers, and two statements about the code depend on how
    they round: the latency block (lines 345-356) and the generation
    gateway [_generate] with [adjust_sequence_times] (lines 37-45 and
    194-214).  This module embeds these functions over Rocq's primitive
    binary64 [float], whose operations are the ones of the hardware the
    interpreter uses.  The control flow above does not depend on the
    rounding and is stated over exact numbers. *)

Module Binary64.

Import PrimFloat SpecFloat FloatOps.

(** ** Operations of Python floats that are not IEEE primitives *)

(** C's [fmod] on the unpacked numbers: the remainder of the truncated
    quotient, which is representable, with the sign of [x]. *)
Definition SFfmod (x y : spec_float) : spec_float :=
  match x, y with
  | S754_nan, _ | _, S754_nan => S754_nan
  | S754_infinity _, _ => S754_nan
  | _, S754_zero _ => S754_nan
  | S754_zero s, _ => S754_zero s
  | S754_finite _ _ _, S754_infinity _ => x
  | S754_finite sx mx ex, S754_finite _ my ey =>
      let e := Z.min ex ey in
      let X := (Zpos mx * 2 ^ (ex - e))%Z in
      let Y := (Zpos my * 2 ^ (ey - e))%Z in
      match (X mod Y)%Z with
      | Zpos r => binary_round prec emax sx r e
      | _ => S754_zero sx
      end
  end.

Definition fmod (x y : float) : float :=
  SF2Prim (SFfmod (Prim2SF x) (Prim2SF y)).

(** C's [floor]. *)
Definition SFfloor (x : spec_float) : spec_float :=
  match x with
  | S754_finite s m e =>
      if (0 <=? e)%Z then x
      else binary_normalize prec emax
             (Z.shiftr (cond_Zopp s (Zpos m)) (- e)) 0 s
  | _ => x
  end.

Definition floor (x : float) : float := SF2Prim (SFfloor (Prim2SF x)).

(** [copysign(0.0, x)] *)
Definition copysign_zero (x : float) : float :=
  if get_sign x then neg_zero else zero.

(** [vx // wx] on floats: [float_floor_div] of CPython's floatobject.c.
    The quotient is computed from the exact remainder, not by rounding
    [vx / wx]: [1.0 // 0.1] is [9.0]. *)
Definition floordiv (vx wx : float) : res float :=
  if (wx =? 0)%float then Raise ZeroDivisionError else
  let rem := fmod vx wx in
  let div := ((vx - rem) / wx)%float in
  let div :=
    if (negb (rem =? 0)%float
        && negb (Bool.eqb (wx <? 0)%float (rem <? 0)%float))%bool
    then (div - 1)%float else div in
  if negb (div =? 0)%float then
    let floored := floor div in
    Ok (if (0.5 <? div - floored)%float then (floored + 1)%float
        else floored)
  else Ok (copysign_zero (vx / wx)%float).

(** The conversion of a Python int in a float operation: the nearest
    float, ties to even; [OverflowError] beyond the largest float. *)
Definition float_of_int (z : Z) : res float :=
  let f := SF2Prim (binary_normalize prec emax z 0 false) in
  if is_infinity f then Raise OverflowError else Ok f.

(** ** Data *)

(** A note of a [NoteSequence] protobuf; the times are doubles. *)
Record SeqNote : Type := mkSeqNote {
  note_pitch : Z;
  note_velocity : Z;
  start_time : float;
  end_time : float
}.

(** The attributes of a [NoteSequence] that the two functions read or
    copy; [tempos] holds the [qpm] of each tempo. *)
Record NoteSequence : Type := mkNoteSequence {
  notes : list SeqNote;
  total_time : float;
  tempos : list float
}.

Record GeneratorOptions : Type := mkGeneratorOptions {
  input_sections : list (float * float);
  generate_sections : list (float * float);
  temperature : float
}.

Record CacheItem : Type := mkCacheItem {
  sequence : NoteSequence;
  item_response_start_time : float
}.

(** One call of [generator.generate]. *)
Record GenCall : Type := mkGenCall {
  call_gen_index : nat;
  call_input : NoteSequence;
  call_options : GeneratorOptions
}.

(** A generator is opaque and may be stateful: its answer may depend on
    the calls made before. *)
Definition Generator : Type :=
  list GenCall -> NoteSequence -> GeneratorOptions -> NoteSequence.

Record Caches : Type := mkCaches {
  MELODY_CACHE : gmap string (option CacheItem);
  BASS_CACHE : gmap string (option CacheItem);
  DRUM_CACHE : gmap string (option CacheItem)
}.

Definition get_cache (tr : Track) (c : Caches)
  : gmap string (option CacheItem) :=
  match tr with
  | Melody => MELODY_CACHE c
  | Bass => BASS_CACHE c
  | Drums => DRUM_CACHE c
  end.

(** The locals that the latency block reads and writes:
    [response_start_time], the four sequences, and the three caches. *)
Record Response : Type := mkResponse {
  r_start_time : float;
  r_melody : NoteSequence;
  r_bass : NoteSequence;
  r_chords : NoteSequence;
  r_drums : NoteSequence;
  r_caches : Caches
}.

(** ** The functions *)

(** Lines 37-45: a copy of the sequence in which [delta_time] is added
    to the start and the end of every note and to [total_time]. *)
Definition adjust_sequence_times (sequence : NoteSequence) (delta_time : float)
  : NoteSequence :=
  {| notes :=
       map (fun note =>
              mkSeqNote (note_pitch note) (note_velocity note)
                (start_time note + delta_time)%float
                (end_time note + delta_time)%float)
         (notes sequence);
     total_time := (total_time sequence + delta_time)%float;
     tempos := tempos sequence |}.

(** Lines 95-100; [val] is the control value of the hub, an int or
    [None]. *)
Definition _temperature (val : option Z) : res float :=
  let min_temp := 0.1%float in
  let max_temp := 2.0%float in
  let default := 1.0%float in
  match val with
  | None => Ok default
  | Some val =>
      v ← float_of_int val;
      Ok (min_temp + (v / 127.0) * (max_temp - min_temp))%float
  end.

(** Lines 194-214; the generator call is appended to the log.
    [trim_note_sequence] is magenta's. *)
Definition _generate (_sequence_generators : list Generator)
    (trim_note_sequence : NoteSequence -> float -> float -> NoteSequence)
    (temperature_val : option Z) (log : list GenCall)
    (gen_index : nat) (input_sequence : NoteSequence)
    (zero_time response_start_time response_end_time : float)
  : res (NoteSequence * list GenCall) :=
  let response_start_time := (response_start_time - zero_time)%float in
  let response_end_time := (response_end_time - zero_time)%float in
  t ← _temperature temperature_val;
  let generator_options :=
    {| input_sections := [(0%float, response_start_time)];
       generate_sections := [(response_start_time, response_end_time)];
       temperature := t |} in
  generator ← getitem _sequence_generators gen_index;
  let input := adjust_sequence_times input_sequence (- zero_time)%float in
  let response_sequence := generator log input generator_options in
  let log := log ++ [mkGenCall gen_index input generator_options] in
  let response_sequence :=
    trim_note_sequence response_sequence response_start_time response_end_time in
  Ok (adjust_sequence_times response_sequence zero_time, log).

(** [self.CACHE[key].response_start_time = t] *)
Definition set_anchor (cache : gmap string (option CacheItem)) (key : string)
    (t : float) : res (gmap string (option CacheItem)) :=
  match cache !! key with
  | None => Raise KeyError
  | Some None => Raise AttributeError
  | Some (Some item) => Ok (<[key := Some (mkCacheItem (sequence item) t)]> cache)
  end.

(** Lines 345-356.  [time_check] and [time_push] are the values of
    [time()] on lines 346 and 347, [part_name] is [part.name]. *)
Definition latency_push (time_check time_push : float) (part_name : string)
    (tick_duration : float) (r : Response) : res Response :=
  if (tick_duration / 4 <=? time_check - r_start_time r)%float then
    q ← floordiv (time_push - r_start_time r)%float tick_duration;
    let push_ticks := (q + 1)%float in
    let response_start_time :=
      (r_start_time r + push_ticks * tick_duration)%float in
    let melody_sequence :=
      adjust_sequence_times (r_melody r) (push_ticks * tick_duration)%float in
    let bass_sequence :=
      adjust_sequence_times (r_bass r) (push_ticks * tick_duration)%float in
    let chord_sequence :=
      adjust_sequence_times (r_chords r) (push_ticks * tick_duration)%float in
    let drum_sequence :=
      adjust_sequence_times (r_drums r) (push_ticks * tick_duration)%float in
    m ← set_anchor (MELODY_CACHE (r_caches r)) part_name response_start_time;
    b ← set_anchor (BASS_CACHE (r_caches r)) part_name response_start_time;
    d ← set_anchor (DRUM_CACHE (r_caches r)) part_name response_start_time;
    Ok (mkResponse response_start_time melody_sequence bass_sequence
          chord_sequence drum_sequence (mkCaches m b d))
  else Ok r.

(** ** Statements in the words of the specification *)



(** The response is late: the time elapsed since [response_start_time],
    read from the clock in the test, is at least [tick_duration / 4]. *)
Definition late (time_check tick_duration : float) (r : Response) : bool :=
  let elapsed := (time_check - r_start_time r)%float in
  (tick_duration / 4 <=? elapsed)%float.

(** A cache slot is filled. *)
Definition filled (slot : option (option CacheItem)) : Prop :=
  exists item, slot = Some (Some item).


(** ** Concrete inputs *)

(** magenta's [trim_note_sequence]: notes that start in [[start, end_)]
    are kept and cut at [end_]. *)
Definition magenta_trim_note_sequence (s : NoteSequence)
    (start_time' end_time' : float) : NoteSequence :=
  {| notes :=
       omap (fun n =>
               if ((start_time n <? start_time')%float
                   || (end_time' <=? start_time n)%float)%bool
               then None
               else Some (mkSeqNote (note_pitch n) (note_velocity n)
                            (start_time n)
                            (if (end_time' <? end_time n)%float
                             then end_time' else end_time n))) (notes s);
     total_time :=
       if (end_time' <? total_time s)%float then end_time' else total_time s;
     tempos := tempos s |}.


Definition one_note (p : Z) (a b : float) : NoteSequence :=
  mkNoteSequence [mkSeqNote p 100 a b] b [120%float].


End Binary64.

(** * Facts *)

(** ** The chord track *)

Lemma chord_loop_closed_form (chords : list (list Z)) (k : nat) (acc : list Note) :
  chord_loop (Z.of_nat k) chords acc =
  acc ++ concat (imap (fun j chord =>
                         generate_midi_chord chord
                           (inject_Z (Z.of_nat (k + j)) / 2) (1 # 2) 80)
                   chords).
Proof.
  revert k acc. induction chords as [|chord rest IH]; intros k acc; simpl.
  - by rewrite app_nil_r.
  - replace (Z.of_nat k + 1)%Z with (Z.of_nat (S k)) by lia.
    rewrite IH, Nat.add_0_r, <- app_assoc. do 3 f_equal.
    apply imap_ext. intros j c _. simpl. by rewrite Nat.add_succ_r.
Qed.

Lemma retimed_chord_equiv (t : Q) (i : nat) (chord : list Z) :
  Forall2 seq_note_equiv
    (map seq_note_of
       (retime_notes t
          (generate_midi_chord chord (inject_Z (Z.of_nat i) / 2) (1 # 2) 80)))
    (map (fun p =>
            mkSeqNote p 80
              (inject_Z (Z.of_nat i) * (1 # 2) + t)
              (inject_Z (Z.of_nat i) * (1 # 2) + (1 # 2) + t))
       chord).
Proof.
  induction chord as [|p chord IH]; simpl; constructor; [|exact IH].
  unfold seq_note_equiv; simpl. repeat split; field.
Qed.

Lemma retimed_chords_equiv (t : Q) (chords : list (list Z)) (f : nat -> nat) :
  Forall2 seq_note_equiv
    (map seq_note_of
       (retime_notes t
          (concat (imap (fun j chord =>
                           generate_midi_chord chord
                             (inject_Z (Z.of_nat (f j)) / 2) (1 # 2) 80)
                     chords))))
    (concat
       (imap (fun j chord =>
                map (fun p =>
                       mkSeqNote p 80
                         (inject_Z (Z.of_nat (f j)) * (1 # 2) + t)
                         (inject_Z (Z.of_nat (f j)) * (1 # 2) + (1 # 2) + t))
                  chord)
          chords)).
Proof.
  revert f. induction chords as [|chord rest IH]; intros f; simpl.
  - constructor.
  - unfold retime_notes in *. rewrite !map_app.
    apply Forall2_app.
    + apply (retimed_chord_equiv t (f 0%nat) chord).
    + apply (IH (f ∘ S)).
Qed.

(** C9: with [add_track_to_sequence] turning each tuple into one sequence
    note, the chord track of a part built for [response_start_time = t]
    is, note for note and in order, the list of block chords of the
    specification: for the chord at position [i] and each of its pitches
    one note of velocity 80 from [i * 0.5 + t] to [i * 0.5 + 0.5 + t]. *)
Theorem chord_track_is_block_chords
    (add_track_to_sequence : NoteSequence -> Z -> list Note -> NoteSequence)
    (part : Part) (t : Q) :
  (forall ns, notes (add_track_to_sequence empty_sequence 0%Z ns)
              = map seq_note_of ns) ->
  Forall2 seq_note_equiv
    (notes (build_chord_sequence add_track_to_sequence part t))
    (spec_chord_notes (get_midi_chords part) t).
Proof.
  intros Hadd. unfold build_chord_sequence, spec_chord_notes.
  rewrite Hadd. change 0%Z with (Z.of_nat 0).
  rewrite chord_loop_closed_form. simpl app.
  apply (retimed_chords_equiv t (get_midi_chords part) (fun j => j)).
Qed.

(** ** Before the loop *)

(** C10: on an empty structure [run] raises [IndexError] whatever the
    ticks are, so neither the loop nor the final stop of the players is
    reached; on a structure with at least one part the code before the
    loop succeeds, with [part_duration] the duration of the part at
    index 0. *)
Theorem run_needs_a_part :
  (forall gens dq trim add self_caches now ticks,
     run gens dq [] trim add self_caches now ticks = Raise IndexError)
  /\ (forall part rest self_caches now,
        exists st,
          run_init (part :: rest) self_caches now = Ok st
          /\ part_duration st = duration part
          /\ part_in_song st = 0%nat
          /\ bars_played_for_part st = 0%Z
          /\ caches st = self_caches
          /\ (forall gens dq trim add,
                run gens dq (part :: rest) trim add self_caches now []
                = Ok (stop_players st))).
Proof.
  split.
  - intros. reflexivity.
  - intros. eexists. split; [reflexivity|]. simpl. auto 6.
Qed.

(** ** The cache blocks *)

Lemma same_locals_refl st : same_locals st st.
Proof. unfold same_locals; auto 12. Qed.

Lemma same_locals_trans st1 st2 st3 :
  same_locals st1 st2 -> same_locals st2 st3 -> same_locals st1 st3.
Proof. unfold same_locals; intuition congruence. Qed.

Lemma get_set_cache tr tr' d c :
  get_cache tr' (set_cache tr d c) = if decide (tr' = tr) then d else get_cache tr' c.
Proof. destruct tr, tr'; reflexivity. Qed.


Section CacheBlocks.

Variable _sequence_generators : list Generator.
Variable trim_note_sequence : NoteSequence -> Q -> Q -> NoteSequence.

Lemma lookup_hit tr part env captured t st item :
  get_cache tr (caches st) !! name part = Some (Some item) ->
  lookup_or_generate _sequence_generators trim_note_sequence tr part env
    captured t st
  = Ok (sequence item, item_response_start_time item, st).
Proof. intros H. unfold lookup_or_generate. by rewrite H. Qed.

Lemma lookup_miss tr part env captured t st generator :
  get_cache tr (caches st) !! name part = Some None ->
  _sequence_generators !! gen_index tr = Some generator ->
  let seq := miss_sequence trim_note_sequence generator (generator_log st) tr
               env captured t (response_duration st) in
  lookup_or_generate _sequence_generators trim_note_sequence tr part env
    captured t st
  = Ok (seq, t,
        with_caches
          (set_cache tr
             (<[name part := Some (mkCacheItem seq (captor_start_time env))]>
                (get_cache tr (caches st)))
             (caches st))
          (with_generator_log
             (generator_log st
              ++ [miss_call tr env captured t (response_duration st)]) st)).
Proof.
  intros H Hg seq. unfold lookup_or_generate, _generate, getitem.
  rewrite H, Hg. reflexivity.
Qed.

(** What a cache block that returns has done. *)
Lemma lookup_inv tr part env captured t st seq t' st' :
  lookup_or_generate _sequence_generators trim_note_sequence tr part env
    captured t st = Ok (seq, t', st') ->
  let slot := get_cache tr (caches st) !! name part in
  t' = anchor_after slot t
  /\ generator_log st'
     = generator_log st
       ++ calls_of slot (miss_call tr env captured t (response_duration st))
  /\ same_locals st st'
  /\ ((exists item, slot = Some (Some item) /\ seq = sequence item /\ st' = st)
      \/ (slot = Some None
          /\ caches st'
             = set_cache tr
                 (<[name part := Some (mkCacheItem seq (captor_start_time env))]>
                    (get_cache tr (caches st)))
                 (caches st)
          /\ exists generator,
               _sequence_generators !! gen_index tr = Some generator
               /\ seq = miss_sequence trim_note_sequence generator
                          (generator_log st) tr env captured t
                          (response_duration st))).
Proof.
  intros H slot. subst slot.
  destruct (get_cache tr (caches st) !! name part) as [[item|]|] eqn:E.
  - rewrite (lookup_hit _ _ _ _ _ _ _ E) in H. injection H as <- <- <-.
    simpl. rewrite app_nil_r.
    repeat split; try apply same_locals_refl. left. by exists item.
  - destruct (_sequence_generators !! gen_index tr) as [g|] eqn:Eg.
    + rewrite (lookup_miss _ _ _ _ _ _ _ E Eg) in H. injection H as <- <- <-.
      simpl. repeat split. right. repeat split. by exists g.
    + unfold lookup_or_generate, _generate, getitem in H.
      rewrite E, Eg in H. discriminate.
  - unfold lookup_or_generate in H. rewrite E in H. discriminate.
Qed.

Lemma lookup_other_caches tr part env captured t st seq t' st' tr' :
  lookup_or_generate _sequence_generators trim_note_sequence tr part env
    captured t st = Ok (seq, t', st') ->
  tr' <> tr ->
  get_cache tr' (caches st') = get_cache tr' (caches st).
Proof.
  intros H Hne. apply lookup_inv in H.
  destruct H as (_ & _ & _ & [(? & _ & _ & ->)|(_ & -> & _)]); [done|].
  rewrite get_set_cache. by destruct (decide (tr' = tr)).
Qed.

End CacheBlocks.

Lemma bind_Ok {A B : Type} (m : res A) (k : A -> res B) (b : B) :
  m ≫= k = Ok b -> exists a, m = Ok a /\ k a = Ok b.
Proof. destruct m as [a|e]; simpl; [eauto|discriminate]. Qed.

Ltac bind_inv H :=
  let a := fresh "a" in
  let E := fresh "E" in
  apply bind_Ok in H; destruct H as (a & E & H).

Section Prepare.

Variable _sequence_generators : list Generator.
Variable trim_note_sequence : NoteSequence -> Q -> Q -> NoteSequence.
Variable add_track_to_sequence : NoteSequence -> Z -> list Note -> NoteSequence.

(** Lines 303-343 seen from outside: the three caches are read in the
    order melody, bass, drums, each hit replaces [response_start_time],
    each miss calls the generator with the value current at that point
    and fills the slot; nothing else changes. *)
Lemma prepare_response_inv env part captured st r st1 :
  prepare_response _sequence_generators trim_note_sequence
    add_track_to_sequence env part captured st = Ok (r, st1) ->
  let slot := fun tr => get_cache tr (caches st) !! name part in
  let t0 := response_start_time st in
  let tM := anchor_after (slot Melody) t0 in
  let tB := anchor_after (slot Bass) tM in
  let tD := anchor_after (slot Drums) tB in
  let d := response_duration st in
  r_start_time r = tD
  /\ generator_log st1
     = generator_log st
       ++ calls_of (slot Melody) (miss_call Melody env captured t0 d)
       ++ calls_of (slot Bass) (miss_call Bass env captured tM d)
       ++ calls_of (slot Drums) (miss_call Drums env captured tB d)
  /\ same_locals st st1
  /\ r_caches r = caches st1
  /\ r_chords r = build_chord_sequence add_track_to_sequence part tD
  /\ forall tr,
       (exists item, slot tr = Some (Some item)
                     /\ r_track tr r = sequence item
                     /\ get_cache tr (caches st1) = get_cache tr (caches st))
       \/ (slot tr = Some None
           /\ get_cache tr (caches st1)
              = <[name part := Some (mkCacheItem (r_track tr r)
                                       (captor_start_time env))]>
                  (get_cache tr (caches st))).
Proof.
  intros H. unfold prepare_response in H.
  bind_inv H. destruct a as [[sm tm] stm].
  bind_inv H. destruct a as [[sb tb] stb].
  bind_inv H. destruct a as [[sd td] std]. injection H as <- <-.
  pose proof (fun tr' => lookup_other_caches _ _ _ _ _ _ _ _ _ _ _ tr' E) as Om.
  pose proof (fun tr' => lookup_other_caches _ _ _ _ _ _ _ _ _ _ _ tr' E0) as Ob.
  pose proof (fun tr' => lookup_other_caches _ _ _ _ _ _ _ _ _ _ _ tr' E1) as Od.
  apply lookup_inv in E, E0, E1. cbv zeta in *.
  destruct E as (-> & Lm & Fm & Cm), E0 as (-> & Lb & Fb & Cb),
           E1 as (-> & Ld & Fd & Cd).
  assert (Rm : response_duration stm = response_duration st) by apply Fm.
  assert (Rb : response_duration stb = response_duration st).
  { transitivity (response_duration stm); [apply Fb | exact Rm]. }
  assert (Sb : get_cache Bass (caches stm) = get_cache Bass (caches st))
    by (by apply Om).
  assert (Sd : get_cache Drums (caches stb) = get_cache Drums (caches st)).
  { rewrite Ob by done. by apply Om. }
  rewrite Sb in *. rewrite Sd in *. rewrite Rm, Rb in *.
  simpl. split; [reflexivity|]. split.
  { rewrite Ld, Lb, Lm. by rewrite <- !app_assoc. }
  split. { eauto using same_locals_trans. }
  split; [reflexivity|]. split; [reflexivity|].
  intros tr. destruct tr; cbn [r_track r_melody r_bass r_drums].
  - rewrite (Od Melody), (Ob Melody) by done.
    destruct Cm as [(it & Hs & -> & ->)|(Hs & Hc & _)].
    + left. by exists it.
    + right. split; [done|]. by rewrite Hc, get_set_cache.
  - rewrite (Od Bass) by done.
    destruct Cb as [(it & Hs & -> & ->)|(Hs & Hc & _)].
    + left. exists it. by rewrite Sb.
    + right. split; [done|]. by rewrite Hc, get_set_cache, Sb.
  - destruct Cd as [(it & Hs & -> & ->)|(Hs & Hc & _)].
    + left. exists it. by rewrite Sd.
    + right. split; [done|]. by rewrite Hc, get_set_cache, Sd.
Qed.

End Prepare.

(** ** The latency block *)

Lemma latency_push_on_time env part tick_duration r :
  ~ late env tick_duration r ->
  latency_push env part tick_duration r = Ok r.
Proof.
  unfold late, latency_push. intros H.
  destruct (Qle_bool _ _) eqn:E; [|reflexivity].
  apply Qle_bool_iff in E. contradiction.
Qed.

Lemma latency_push_inv env part tick_duration r r' :
  latency_push env part tick_duration r = Ok r' ->
  (~ late env tick_duration r /\ r' = r)
  \/ (late env tick_duration r
      /\ ~ tick_duration == 0
      /\ let delta := spec_push_ticks env tick_duration r * tick_duration in
         r_start_time r' = r_start_time r + delta
         /\ r_melody r' = adjust_sequence_times (r_melody r) delta
         /\ r_bass r' = adjust_sequence_times (r_bass r) delta
         /\ r_chords r' = adjust_sequence_times (r_chords r) delta
         /\ r_drums r' = adjust_sequence_times (r_drums r) delta
         /\ forall tr,
              reanchored (name part) (r_start_time r + delta)
                (get_cache tr (r_caches r)) (get_cache tr (r_caches r'))).
Proof.
  unfold latency_push, late. intros H.
  destruct (Qle_bool _ _) eqn:E.
  - right. apply Qle_bool_iff in E. split; [exact E|].
    unfold floordiv in H.
    destruct (Qeq_bool tick_duration 0) eqn:Ez; [discriminate|].
    split. { intros Hz. apply Qeq_bool_iff in Hz. congruence. }
    simpl in H. unfold set_anchor in H.
    destruct (MELODY_CACHE (r_caches r) !! name part) as [[im|]|] eqn:Em;
      try discriminate.
    destruct (BASS_CACHE (r_caches r) !! name part) as [[ib|]|] eqn:Eb;
      try discriminate.
    destruct (DRUM_CACHE (r_caches r) !! name part) as [[id|]|] eqn:Ed;
      try discriminate.
    simpl in H. injection H as <-. simpl. unfold spec_push_ticks.
    repeat split.
    intros []; simpl; eexists; split; eauto.
  - left. injection H as <-. split; [|reflexivity].
    intros Hl. apply Qle_bool_iff in Hl. congruence.
Qed.

Lemma latency_push_total env part tick_duration r :
  ~ tick_duration == 0 ->
  (forall tr, filled (get_cache tr (r_caches r) !! name part)) ->
  exists r', latency_push env part tick_duration r = Ok r'.
Proof.
  intros Hz Hf. unfold latency_push.
  destruct (Qle_bool _ _); [|eauto].
  unfold floordiv. destruct (Qeq_bool tick_duration 0) eqn:Ez.
  { apply Qeq_bool_iff in Ez. contradiction. }
  destruct (Hf Melody) as [im Hm], (Hf Bass) as [ib Hb], (Hf Drums) as [id Hd].
  simpl in *. unfold set_anchor. rewrite Hm, Hb, Hd. simpl. eauto.
Qed.

(** ** One tick *)

Section Tick.

Variable _sequence_generators : list Generator.
Variable _default_qpm : Q.
Variable STRUCTURE : list Part.
Variable trim_note_sequence : NoteSequence -> Q -> Q -> NoteSequence.
Variable add_track_to_sequence : NoteSequence -> Z -> list Note -> NoteSequence.

Local Abbreviation tick' :=
  (tick _sequence_generators _default_qpm STRUCTURE trim_note_sequence
     add_track_to_sequence).
Local Abbreviation prepare_response' :=
  (prepare_response _sequence_generators trim_note_sequence
     add_track_to_sequence).

(** A tick that reaches the end of the loop body: either it is not at the
    start of a part and only the bookkeeping is done, or it prepares a
    response, runs the latency block and dispatches. *)
Lemma tick_continue_inv st env st' :
  tick' st env = Ok (Continue st') ->
  let s := handle_panic st in
  let tick_time := total_time (captured_sequence env) in
  let i := fst (advance_part s) in
  let b := snd (advance_part s) in
  stop_is_set env = false
  /\ exists part,
       STRUCTURE !! i = Some part
       /\ let s1 := bookkeeping s tick_time i b part in
          (b <> 0%Z /\ st' = s1)
          \/ (b = 0%Z
              /\ exists r0 st1 r,
                   prepare_response' env part (stamp_tempo _default_qpm env) s1
                   = Ok (r0, st1)
                   /\ latency_push env part
                        (tick_time - last_tick_time s) r0 = Ok r
                   /\ st' = with_players (dispatch r (players st1))
                              (with_caches (r_caches r)
                                 (with_response_start_time (r_start_time r)
                                    st1))).
Proof.
  unfold tick. intros H.
  destruct (stop_is_set env); [discriminate|]. split; [reflexivity|].
  destruct (advance_part (handle_panic st)) as [i b] eqn:Ea. simpl.
  destruct (length STRUCTURE <=? i)%nat; [discriminate|].
  unfold getitem in H.
  destruct (STRUCTURE !! i) as [part|]; [|discriminate]. simpl in H.
  exists part. split; [reflexivity|].
  destruct (b =? 0)%Z eqn:Eb; simpl in H.
  - right. apply Z.eqb_eq in Eb. subst b. split; [reflexivity|].
    bind_inv H. injection H as <-.
    unfold start_of_part_work in E.
    bind_inv E. destruct a0 as [r0 st1]. bind_inv E. injection E as <-.
    exists r0, st1, a0. auto.
  - left. apply Z.eqb_neq in Eb. split; [exact Eb|]. by injection H as <-.
Qed.

(** A tick leaves the loop only on the stop flag or past the last part. *)
Lemma tick_break_inv st env st' :
  tick' st env = Ok (Break st') ->
  (stop_is_set env = true /\ st' = st)
  \/ (stop_is_set env = false
      /\ (length STRUCTURE <= fst (advance_part (handle_panic st)))%nat
      /\ part_in_song st' = fst (advance_part (handle_panic st))
      /\ players st' = players (handle_panic st)
      /\ panic st' = false
      /\ caches st' = caches st
      /\ generator_log st' = generator_log st).
Proof.
  unfold tick. intros H.
  destruct (stop_is_set env). { left. by injection H as <-. }
  right. split; [reflexivity|].
  destruct (advance_part (handle_panic st)) as [i b] eqn:Ea. simpl.
  destruct (length STRUCTURE <=? i)%nat eqn:El.
  - injection H as <-. simpl. apply Nat.leb_le in El.
    unfold handle_panic. destruct (panic st) eqn:Ep; simpl; auto 8.
  - unfold getitem in H. destruct (STRUCTURE !! i); [|discriminate].
    simpl in H. destruct (b =? 0)%Z; simpl in H; [|discriminate].
    bind_inv H. discriminate.
Qed.

(** The tick at the start of a part, with the state of the four player
    logs, the caches and [response_start_time] at its end. *)
Lemma tick_start_of_part st env st' :
  tick' st env = Ok (Continue st') ->
  snd (advance_part (handle_panic st)) = 0%Z ->
  let s := handle_panic st in
  let tick_time := total_time (captured_sequence env) in
  let i := fst (advance_part s) in
  exists part r0 st1 r,
    STRUCTURE !! i = Some part
    /\ prepare_response' env part (stamp_tempo _default_qpm env)
         (bookkeeping s tick_time i 0 part) = Ok (r0, st1)
    /\ latency_push env part (tick_time - last_tick_time s) r0 = Ok r
    /\ players st' = dispatch r (players s)
    /\ caches st' = r_caches r
    /\ response_start_time st' = r_start_time r
    /\ generator_log st' = generator_log st1
    /\ part_in_song st' = i
    /\ bars_played_for_part st' = 1%Z
    /\ part_duration st' = duration part
    /\ last_tick_time st' = tick_time
    /\ panic st' = false.
Proof.
  intros H Hb. apply tick_continue_inv in H. cbv zeta in H.
  destruct H as (_ & part & Hp & [(Hn & _)|(_ & r0 & st1 & r & Hprep & Hlat & ->)]).
  { contradiction. }
  rewrite Hb in Hprep. exists part, r0, st1, r.
  pose proof (prepare_response_inv _ _ _ _ _ _ _ _ _ Hprep) as Hinv.
  cbv zeta in Hinv. destruct Hinv as (_ & _ & Hf & _).
  destruct Hf as (F1 & F2 & F3 & F4 & F5 & F6 & F7 & F8 & F9 & F10).
  simpl in *. rewrite F2, F7, F9, F10, F3, F1.
  repeat split; try done.
  unfold handle_panic. by destruct (panic st) eqn:Ep.
Qed.

Lemma handle_panic_keeps st :
  caches (handle_panic st) = caches st
  /\ generator_log (handle_panic st) = generator_log st
  /\ fst (advance_part (handle_panic st)) = fst (advance_part st)
  /\ snd (advance_part (handle_panic st)) = snd (advance_part st)
  /\ last_tick_time (handle_panic st) = last_tick_time st.
Proof. unfold handle_panic. by destruct (panic st). Qed.

(** C2: a tick at the start of a part that reaches the dispatch appends
    exactly one update to each of the four player logs, and the four
    updates carry the same start time: the value that
    [response_start_time] has at the end of the tick, which is the one
    the latency block returned. *)
Theorem dispatch_phase_lock st env st' :
  tick' st env = Ok (Continue st') ->
  snd (advance_part (handle_panic st)) = 0%Z ->
  let s := handle_panic st in
  let tick_time := total_time (captured_sequence env) in
  exists part r0 st1 r,
    prepare_response' env part (stamp_tempo _default_qpm env)
      (bookkeeping s tick_time (fst (advance_part s)) 0 part) = Ok (r0, st1)
    /\ latency_push env part (tick_time - last_tick_time s) r0 = Ok r
    /\ response_start_time st' = r_start_time r
    /\ let t := Some (response_start_time st') in
       player_melody (players st')
       = player_melody (players s) ++ [UpdateSequence (r_melody r) t]
       /\ player_bass (players st')
          = player_bass (players s) ++ [UpdateSequence (r_bass r) t]
       /\ player_chords (players st')
          = player_chords (players s) ++ [UpdateSequence (r_chords r) t]
       /\ player_drums (players st')
          = player_drums (players s) ++ [UpdateSequence (r_drums r) t].
Proof.
  intros H Hb. destruct (tick_start_of_part _ _ _ H Hb)
    as (part & r0 & st1 & r & _ & Hprep & Hlat & Hpl & _ & Ht & _).
  exists part, r0, st1, r. rewrite Hpl, Ht. by repeat split.
Qed.


(** *** What a tick does to the caches *)

Lemma keeps_sequences_refl c : keeps_sequences c c.
Proof. intros tr key item H. eauto. Qed.

Lemma keeps_sequences_trans c1 c2 c3 :
  keeps_sequences c1 c2 -> keeps_sequences c2 c3 -> keeps_sequences c1 c3.
Proof.
  intros H1 H2 tr key item H.
  destruct (H1 _ _ _ H) as (i2 & Hi2 & E2).
  destruct (H2 _ _ _ Hi2) as (i3 & Hi3 & E3).
  exists i3. split; [done|congruence].
Qed.

Lemma keeps_keys_refl c : keeps_keys c c.
Proof. by intros tr key H. Qed.

Lemma keeps_keys_trans c1 c2 c3 :
  keeps_keys c1 c2 -> keeps_keys c2 c3 -> keeps_keys c1 c3.
Proof. intros H1 H2 tr key H. eauto. Qed.

Lemma prepare_keeps env part captured st r0 st1 :
  prepare_response' env part captured st = Ok (r0, st1) ->
  keeps_sequences (caches st) (caches st1)
  /\ keeps_keys (caches st) (caches st1).
Proof.
  intros H. apply prepare_response_inv in H. cbv zeta in H.
  destruct H as (_ & _ & _ & _ & _ & Hc). split.
  - intros tr key item Hk. exists item. split; [|done].
    destruct (Hc tr) as [(_ & _ & _ & ->)|(Hs & ->)]; [done|].
    destruct (decide (key = name part)) as [->|Hne].
    + congruence.
    + by rewrite lookup_insert_ne.
  - intros tr key Hk.
    destruct (Hc tr) as [(_ & _ & _ & ->)|(Hs & ->)]; [done|].
    destruct (decide (key = name part)) as [->|Hne].
    + rewrite lookup_insert_eq. eauto.
    + by rewrite lookup_insert_ne.
Qed.

(** After the three cache blocks the slots of the part are filled with
    the sequences the response carries. *)
Lemma prepare_fills env part captured st r0 st1 tr :
  prepare_response' env part captured st = Ok (r0, st1) ->
  exists item,
    get_cache tr (caches st1) !! name part = Some (Some item)
    /\ sequence item = r_track tr r0.
Proof.
  intros H. apply prepare_response_inv in H. cbv zeta in H.
  destruct H as (_ & _ & _ & _ & _ & Hc).
  destruct (Hc tr) as [(item & Hs & Hr & ->)|(Hs & ->)].
  - exists item. by rewrite Hr.
  - eexists. rewrite lookup_insert_eq. split; reflexivity.
Qed.

Lemma latency_keeps env part tick_duration r0 r :
  latency_push env part tick_duration r0 = Ok r ->
  keeps_sequences (r_caches r0) (r_caches r)
  /\ keeps_keys (r_caches r0) (r_caches r).
Proof.
  intros H. apply latency_push_inv in H. cbv zeta in H.
  destruct H as [(_ & ->)|(_ & _ & _ & _ & _ & _ & _ & Hre)].
  { split; [apply keeps_sequences_refl | apply keeps_keys_refl]. }
  split.
  - intros tr key item Hk. destruct (Hre tr) as (it & Hit & ->).
    destruct (decide (key = name part)) as [->|Hne].
    + rewrite lookup_insert_eq. eexists. split; [reflexivity|]. simpl.
      congruence.
    + rewrite lookup_insert_ne by done. eauto.
  - intros tr key Hk. destruct (Hre tr) as (it & Hit & ->).
    destruct (decide (key = name part)) as [->|Hne].
    + rewrite lookup_insert_eq. eauto.
    + by rewrite lookup_insert_ne.
Qed.

Lemma tick_keeps st env o :
  tick' st env = Ok o ->
  keeps_sequences (caches st) (caches (state_of o))
  /\ keeps_keys (caches st) (caches (state_of o)).
Proof.
  intros H. destruct o as [st'|st'].
  - apply tick_continue_inv in H. cbv zeta in H.
    destruct (handle_panic_keeps st) as (Kc & _).
    destruct H as (_ & part & _ & [(_ & ->)|(_ & r0 & st1 & r & Hp & Hl & ->)]);
      simpl.
    + rewrite Kc. split; [apply keeps_sequences_refl | apply keeps_keys_refl].
    + pose proof (prepare_response_inv _ _ _ _ _ _ _ _ _ Hp) as Hinv.
      cbv zeta in Hinv. destruct Hinv as (_ & _ & _ & Hrc & _).
      apply prepare_keeps in Hp. apply latency_keeps in Hl.
      simpl in Hp. rewrite Kc in Hp. rewrite Hrc in Hl.
      destruct Hp, Hl.
      split; eauto using keeps_sequences_trans, keeps_keys_trans.
  - apply tick_break_inv in H. simpl.
    destruct H as [(_ & ->)|(_ & _ & _ & _ & _ & -> & _)];
      split; auto using keeps_sequences_refl, keeps_keys_refl.
Qed.

End Tick.

(** ** The loop *)

Lemma flushes_snoc log e :
  flushes (log ++ [e]) = (flushes log + if is_flush e then 1 else 0)%nat.
Proof.
  unfold flushes. rewrite filter_app, length_app. f_equal.
  destruct e as [| s [t|] |]; reflexivity.
Qed.

Lemma flush_counts_dispatch r p :
  flush_counts (dispatch r p) = flush_counts p.
Proof.
  unfold flush_counts, dispatch, call_players. simpl.
  rewrite !flushes_snoc. simpl. by rewrite !Nat.add_0_r.
Qed.

Lemma flush_counts_flush st :
  flush_counts (players (flush st)) = map S (flush_counts (players st)).
Proof.
  unfold flush_counts, flush, call_players. simpl.
  rewrite !flushes_snoc. simpl. by rewrite !Nat.add_1_r.
Qed.

Section Loop.

Variable _sequence_generators : list Generator.
Variable _default_qpm : Q.
Variable STRUCTURE : list Part.
Variable trim_note_sequence : NoteSequence -> Q -> Q -> NoteSequence.
Variable add_track_to_sequence : NoteSequence -> Z -> list Note -> NoteSequence.

Local Abbreviation tick' :=
  (tick _sequence_generators _default_qpm STRUCTURE trim_note_sequence
     add_track_to_sequence).
Local Abbreviation iterations' :=
  (iterations _sequence_generators _default_qpm STRUCTURE trim_note_sequence
     add_track_to_sequence).
Local Abbreviation prepare_response' :=
  (prepare_response _sequence_generators trim_note_sequence
     add_track_to_sequence).

(** The players after a tick that is not stopped: those after the panic
    block, plus one dispatch at the start of a part. *)
Lemma tick_players st env o :
  tick' st env = Ok o ->
  stop_is_set env = false ->
  panic (state_of o) = false
  /\ (players (state_of o) = players (handle_panic st)
      \/ exists r, players (state_of o) = dispatch r (players (handle_panic st))).
Proof.
  intros H Hs. destruct o as [st'|st']; simpl.
  - pose proof (tick_continue_inv _ _ _ _ _ _ _ _ H) as Hi. cbv zeta in Hi.
    destruct Hi as (_ & part & _ & [(_ & ->)|(Hb & _)]).
    + simpl. split; [|by left]. unfold handle_panic.
      by destruct (panic st) eqn:Ep.
    + destruct (tick_start_of_part _ _ _ _ _ _ _ _ H Hb)
        as (_ & _ & _ & r & _ & _ & _ & Hpl & _ & _ & _ & _ & _ & _ & _ & Hp).
      split; [done|]. right. by exists r.
  - apply tick_break_inv in H.
    destruct H as [(Hs' & _)|(_ & _ & _ & Hpl & Hp & _)]; [congruence|].
    split; [done|]. by left.
Qed.

Lemma tick_flush_counts st env o :
  tick' st env = Ok o ->
  stop_is_set env = false ->
  panic (state_of o) = false
  /\ flush_counts (players (state_of o))
     = if panic st then map S (flush_counts (players st))
       else flush_counts (players st).
Proof.
  intros H Hs. destruct (tick_players _ _ _ H Hs) as (Hp & Hpl).
  split; [done|].
  assert (flush_counts (players (state_of o))
          = flush_counts (players (handle_panic st))) as ->.
  { destruct Hpl as [->|(r & ->)]; [done|apply flush_counts_dispatch]. }
  unfold handle_panic. destruct (panic st); [apply flush_counts_flush|done].
Qed.

Lemma tick_stopped st env :
  stop_is_set env = true -> tick' st env = Ok (Break st).
Proof. intros H. unfold tick. by rewrite H. Qed.

(** Without a new panic signal, no further flush. *)
Lemma iterations_no_flush ticks st o :
  panic st = false ->
  Forall (fun env => panic_received env = false) ticks ->
  iterations' st ticks = Ok o ->
  flush_counts (players (state_of o)) = flush_counts (players st).
Proof.
  revert st. induction ticks as [|env rest IH]; intros st Hp Hall H; simpl in H.
  - by injection H as <-.
  - inversion Hall as [|? ? Hpr Hrest]; subst.
    unfold deliver_signals in H. rewrite Hpr in H.
    destruct (tick' st env) as [o'|e] eqn:Et; [|discriminate].
    destruct (stop_is_set env) eqn:Es.
    + rewrite (tick_stopped _ _ Es) in Et. injection Et as <-.
      by injection H as <-.
    + destruct (tick_flush_counts _ _ _ Et Es) as (Hp' & Hf).
      rewrite Hp in Hf. destruct o' as [st'|st'].
      * rewrite (IH st' Hp' Hrest H). exact Hf.
      * injection H as <-. exact Hf.
Qed.

(** C5: when a tick is processed with the panic flag set and the stop
    flag not set, whether or not the tick is at the start of a part, each
    of the four players receives the empty sequence (an update without
    start time) right after its earlier calls, the flag is cleared and
    each player has received exactly one more flush; as long as no new
    panic signal arrives, no number of further ticks adds another. *)
Theorem panic_flushes_once st env o :
  panic st = true ->
  stop_is_set env = false ->
  tick' st env = Ok o ->
  let flush_event := UpdateSequence empty_sequence None in
  let flushed :=
    call_players flush_event flush_event flush_event flush_event (players st) in
  (players (state_of o) = flushed
   \/ exists r, players (state_of o) = dispatch r flushed)
  /\ panic (state_of o) = false
  /\ flush_counts (players (state_of o)) = map S (flush_counts (players st))
  /\ forall st' rest o',
       o = Continue st' ->
       Forall (fun env => panic_received env = false) rest ->
       iterations' st' rest = Ok o' ->
       flush_counts (players (state_of o'))
       = map S (flush_counts (players st)).
Proof.
  intros Hp Hs H. cbv zeta.
  destruct (tick_players _ _ _ H Hs) as (Hp' & Hpl).
  destruct (tick_flush_counts _ _ _ H Hs) as (_ & Hf). rewrite Hp in Hf.
  unfold handle_panic in Hpl. rewrite Hp in Hpl.
  split; [exact Hpl|]. split; [exact Hp'|]. split; [exact Hf|].
  intros st' rest o' -> Hall Hit. simpl in *.
  rewrite (iterations_no_flush _ _ _ Hp' Hall Hit). exact Hf.
Qed.

(** *** Cached sequences along the loop *)

Lemma deliver_signals_keeps env st :
  caches (deliver_signals env st) = caches st
  /\ generator_log (deliver_signals env st) = generator_log st
  /\ players (deliver_signals env st) = players st
  /\ advance_part (deliver_signals env st) = advance_part st
  /\ last_tick_time (deliver_signals env st) = last_tick_time st.
Proof. unfold deliver_signals. by destruct (panic_received env). Qed.

Lemma iterations_keeps ticks st o :
  iterations' st ticks = Ok o ->
  keeps_sequences (caches st) (caches (state_of o))
  /\ keeps_keys (caches st) (caches (state_of o)).
Proof.
  revert st. induction ticks as [|env rest IH]; intros st H; simpl in H.
  - injection H as <-. split; [apply keeps_sequences_refl|apply keeps_keys_refl].
  - destruct (tick' (deliver_signals env st) env) as [o'|e] eqn:Et;
      [|discriminate].
    apply tick_keeps in Et.
    destruct (deliver_signals_keeps env st) as (Kc & _). rewrite Kc in Et.
    destruct Et as (Es & Ek). destruct o' as [st'|st'].
    + destruct (IH _ H) as (Es' & Ek'). simpl in *.
      split; eauto using keeps_sequences_trans, keeps_keys_trans.
    + by injection H as <-.
Qed.

Lemma calls_of_other_track slot tr tr' env captured t d :
  tr' <> tr ->
  Forall (fun c => call_gen_index c <> gen_index tr)
    (calls_of slot (miss_call tr' env captured t d)).
Proof.
  intros Hne. destruct slot as [[item|]|]; simpl; repeat constructor;
    simpl; by destruct tr, tr'.
Qed.

(** C4: take a tick at the start of a part that reaches the dispatch (an
    encounter of the part), any further ticks of the same run, and then a
    tick at the start of a part with the same name.  For each cached
    track, the later tick sends no call to that track's generator, the
    sequence it takes is the one the first encounter took, and after it
    the cache still holds that sequence: a latency push changes the
    anchor of the entry only. *)
Theorem cache_hit_after_first_encounter
    st env st1 rest st2 env' st3 part part' tr :
  let s := handle_panic st in
  let s' := handle_panic (deliver_signals env' st2) in
  tick' st env = Ok (Continue st1) ->
  snd (advance_part s) = 0%Z ->
  STRUCTURE !! fst (advance_part s) = Some part ->
  iterations' st1 rest = Ok (Continue st2) ->
  tick' (deliver_signals env' st2) env' = Ok (Continue st3) ->
  snd (advance_part s') = 0%Z ->
  STRUCTURE !! fst (advance_part s') = Some part' ->
  name part' = name part ->
  exists first st1p later st3p,
    prepare_response' env part (stamp_tempo _default_qpm env)
      (bookkeeping s (total_time (captured_sequence env))
         (fst (advance_part s)) 0 part) = Ok (first, st1p)
    /\ prepare_response' env' part' (stamp_tempo _default_qpm env')
         (bookkeeping s' (total_time (captured_sequence env'))
            (fst (advance_part s')) 0 part') = Ok (later, st3p)
    /\ r_track tr later = r_track tr first
    /\ (exists new,
          generator_log st3 = generator_log st2 ++ new
          /\ Forall (fun c => call_gen_index c <> gen_index tr) new)
    /\ exists item,
         get_cache tr (caches st3) !! name part = Some (Some item)
         /\ sequence item = r_track tr first.
Proof.
  intros s s' H1 Hb1 Hp1 Hit H2 Hb2 Hp2 Hname.
  destruct (tick_start_of_part _ _ _ _ _ _ _ _ H1 Hb1)
    as (p1 & first & st1p & r1 & Hp1' & Hprep1 & Hlat1 & _ & Hc1 & _).
  fold s in Hp1', Hprep1. rewrite Hp1 in Hp1'. injection Hp1' as <-.
  destruct (tick_start_of_part _ _ _ _ _ _ _ _ H2 Hb2)
    as (p2 & later & st3p & r2 & Hp2' & Hprep2 & Hlat2 & _ & Hc2 & _ & Hlog2 & _).
  fold s' in Hp2', Hprep2. rewrite Hp2 in Hp2'. injection Hp2' as <-.
  exists first, st1p, later, st3p. split; [exact Hprep1|]. split; [exact Hprep2|].
  (* the entry stored at the first encounter *)
  destruct (prepare_fills _ _ _ _ _ _ _ _ _ tr Hprep1) as (i0 & Hi0 & Hs0).
  pose proof (prepare_response_inv _ _ _ _ _ _ _ _ _ Hprep1) as Hinv1.
  cbv zeta in Hinv1. destruct Hinv1 as (_ & _ & _ & Hrc1 & _).
  destruct (latency_keeps _ _ _ _ _ Hlat1) as (Kl1 & _).
  rewrite Hrc1, <- Hc1 in Kl1.
  destruct (Kl1 _ _ _ Hi0) as (i1 & Hi1 & Hs1).
  (* it survives the ticks in between *)
  destruct (iterations_keeps _ _ _ Hit) as (Kit & _). simpl in Kit.
  destruct (Kit _ _ _ Hi1) as (i2 & Hi2 & Hs2).
  (* the later encounter finds it *)
  pose proof (prepare_response_inv _ _ _ _ _ _ _ _ _ Hprep2) as Hinv2.
  cbv zeta in Hinv2. destruct Hinv2 as (_ & Hl2 & _ & Hrc2 & _ & Hslots).
  destruct (handle_panic_keeps (deliver_signals env' st2)) as (Kc & Kg & _).
  destruct (deliver_signals_keeps env' st2) as (Dc & Dg & _).
  simpl in Hl2, Hslots. fold s' in Kc, Kg.
  rewrite Kc, Dc in Hslots. rewrite Kc, Dc, Kg, Dg in Hl2.
  rewrite Hname in *.
  split.
  { destruct (Hslots tr) as [(it & Hit' & Hr & _)|(Hnone & _)]; [|congruence].
    rewrite Hr. assert (it = i2) as -> by congruence. congruence. }
  split.
  { eexists. split. { rewrite Hlog2, Hl2. reflexivity. }
    rewrite !Forall_app.
    destruct tr; simpl in Hi2; rewrite Hi2; cbn [calls_of];
      (split; [|split]); try (by constructor);
      by apply calls_of_other_track. }
  destruct (tick_keeps _ _ _ _ _ _ _ _ H2) as (K2 & _). simpl in K2.
  rewrite Dc in K2. destruct (K2 _ _ _ Hi2) as (i3 & Hi3 & Hs3).
  exists i3. split; [exact Hi3|congruence].
Qed.

(** *** Ticks that cannot fail *)

Lemma lookup_total tr part env captured t st :
  is_Some (get_cache tr (caches st) !! name part) ->
  (3 <= length _sequence_generators)%nat ->
  exists seq t' st',
    lookup_or_generate _sequence_generators trim_note_sequence tr part env
      captured t st = Ok (seq, t', st').
Proof.
  intros [[item|] Hs] Hg.
  - rewrite (lookup_hit _ _ _ _ _ _ _ _ _ Hs). eauto.
  - destruct (lookup_lt_is_Some_2 _sequence_generators (gen_index tr))
      as [g Hgen]. { destruct tr; simpl; lia. }
    rewrite (lookup_miss _ _ _ _ _ _ _ _ _ Hs Hgen). eauto.
Qed.

Lemma prepare_total env part captured st :
  (forall tr, is_Some (get_cache tr (caches st) !! name part)) ->
  (3 <= length _sequence_generators)%nat ->
  exists r0 st1, prepare_response' env part captured st = Ok (r0, st1).
Proof.
  intros Hk Hg. unfold prepare_response.
  destruct (lookup_total Melody part env captured (response_start_time st) st
              (Hk Melody) Hg) as (sm & tm & stm & Em).
  rewrite Em. simpl.
  destruct (lookup_total Bass part env captured tm stm) as (sb & tb & stb & Eb);
    [|done|].
  { rewrite (lookup_other_caches _ _ _ _ _ _ _ _ _ _ _ Bass Em) by done.
    apply Hk. }
  rewrite Eb. simpl.
  destruct (lookup_total Drums part env captured tb stb) as (sd & td & std & Ed);
    [|done|].
  { rewrite (lookup_other_caches _ _ _ _ _ _ _ _ _ _ _ Drums Eb) by done.
    rewrite (lookup_other_caches _ _ _ _ _ _ _ _ _ _ _ Drums Em) by done.
    apply Hk. }
  rewrite Ed. simpl. eauto.
Qed.

Lemma has_keys_keeps c c' :
  has_keys STRUCTURE c -> keeps_keys c c' -> has_keys STRUCTURE c'.
Proof.
  unfold has_keys. intros H K. eapply Forall_impl; [exact H|].
  intros part Hp tr. apply K, Hp.
Qed.

(** With a slot for every part, three generators and a tick time later
    than the previous one, a tick that is not stopped and stays inside
    the structure reaches the end of the body, and its counters are
    those of [count_tick]. *)
Lemma tick_counts st env c :
  stop_is_set env = false ->
  has_keys STRUCTURE (caches st) ->
  (3 <= length _sequence_generators)%nat ->
  last_tick_time st < total_time (captured_sequence env) ->
  count_tick STRUCTURE (counters st) = Some c ->
  exists st',
    tick' st env = Ok (Continue st')
    /\ counters st' = c
    /\ has_keys STRUCTURE (caches st')
    /\ last_tick_time st' = total_time (captured_sequence env).
Proof.
  intros Hs Hk Hg Hlt Hc.
  destruct (handle_panic_keeps st) as (Kc & _ & Ki & Kb & Kt).
  unfold count_tick, counters in Hc.
  assert (Ha : advance_part st
               = if (part_duration st <? bars_played_for_part st)%Z
                 then (S (part_in_song st), 0%Z)
                 else (part_in_song st, bars_played_for_part st))
    by reflexivity.
  destruct (advance_part st) as [i b] eqn:Eadv. simpl in Ki, Kb.
  rewrite <- Ha in Hc.
  destruct (STRUCTURE !! i) as [part|] eqn:Ep; [|discriminate].
  injection Hc as <-.
  assert (exists st', tick' st env = Ok (Continue st')) as [st' Ht].
  { unfold tick. rewrite Hs.
    destruct (advance_part (handle_panic st)) as [i' b'] eqn:E'.
    simpl in Ki, Kb. subst i' b'.
    assert (Hl : (i < length STRUCTURE)%nat) by (eapply lookup_lt_Some; eauto).
    apply Nat.leb_gt in Hl. rewrite Hl.
    unfold getitem. rewrite Ep. simpl.
    destruct (b =? 0)%Z; simpl; [|eauto].
    unfold start_of_part_work.
    destruct (prepare_total env part (stamp_tempo _default_qpm env)
                (bookkeeping (handle_panic st)
                   (total_time (captured_sequence env)) i b part))
      as (r0 & st1 & Hprep); [|done|].
    { simpl. rewrite Kc. unfold has_keys in Hk.
      rewrite Forall_forall in Hk. apply Hk.
      eapply list_elem_of_lookup_2; eauto. }
    rewrite Hprep. simpl.
    destruct (latency_push_total env part
                (total_time (captured_sequence env)
                 - last_tick_time (handle_panic st)) r0) as (r & Hlat).
    { rewrite Kt. lra. }
    { intros tr.
      destruct (prepare_fills _ _ _ _ _ _ _ _ _ tr Hprep) as (item & Hi & _).
      pose proof (prepare_response_inv _ _ _ _ _ _ _ _ _ Hprep) as Hinv.
      cbv zeta in Hinv. destruct Hinv as (_ & _ & _ & -> & _).
      by exists item. }
    rewrite Hlat. simpl. eauto. }
  exists st'. split; [exact Ht|].
  destruct (tick_keeps _ _ _ _ _ _ _ _ Ht) as (_ & Kk). simpl in Kk.
  pose proof (tick_continue_inv _ _ _ _ _ _ _ _ Ht) as Hinv.
  cbv zeta in Hinv. rewrite Ki, Kb in Hinv.
  destruct Hinv as (_ & part' & Hp' & Hcase).
  rewrite Ep in Hp'. injection Hp' as <-.
  split; [|split; [eapply has_keys_keeps; eauto|]].
  - destruct Hcase as [(_ & ->)|(Hb0 & _)]; [reflexivity|].
    assert (Hb' : snd (advance_part (handle_panic st)) = 0%Z) by congruence.
    destruct (tick_start_of_part _ _ _ _ _ _ _ _ Ht Hb')
      as (p2 & _ & _ & _ & Hp2 & _ & _ & _ & _ & _ & _ & Hi & Hbb & Hd & _).
    rewrite Ki, Ep in Hp2. injection Hp2 as <-.
    unfold counters. rewrite Hi, Hbb, Hd, Ki, Hb0. reflexivity.
  - destruct Hcase as [(_ & ->)|(Hb0 & _)]; [reflexivity|].
    assert (Hb' : snd (advance_part (handle_panic st)) = 0%Z) by congruence.
    destruct (tick_start_of_part _ _ _ _ _ _ _ _ Ht Hb')
      as (p2 & _ & _ & _ & _ & _ & _ & _ & _ & _ & _ & _ & _ & _ & Hl & _).
    exact Hl.
Qed.

Lemma iterations_count ticks : forall st n c,
  length ticks = n ->
  advancing (last_tick_time st) ticks ->
  has_keys STRUCTURE (caches st) ->
  (3 <= length _sequence_generators)%nat ->
  count_ticks STRUCTURE (counters st) n = Some c ->
  exists st',
    iterations' st ticks = Ok (Continue st') /\ counters st' = c.
Proof.
  induction ticks as [|env rest IH]; intros st n c Hn Hadv Hk Hg Hc.
  - subst n. simpl in Hc. injection Hc as <-. by exists st.
  - subst n. cbn [count_ticks length] in Hc. simpl in Hadv.
    destruct Hadv as (Hs & Hlt & Hadv).
    destruct (count_tick STRUCTURE (counters st)) as [c1|] eqn:E1;
      [|discriminate].
    destruct (deliver_signals_keeps env st) as (Dc & _ & _ & Da & Dt).
    destruct (tick_counts (deliver_signals env st) env c1)
      as (st1 & Ht & Hc1 & Hk1 & Ht1); try done.
    { by rewrite Dc. }
    { by rewrite Dt. }
    { rewrite <- E1. unfold deliver_signals, counters.
      by destruct (panic_received env). }
    simpl. rewrite Ht.
    apply (IH st1 (length rest) c); try done.
    + by rewrite Ht1.
    + by rewrite Hc1.
Qed.

End Loop.

(** ** The scenario of two parts *)

Lemma advancing_take ticks : forall last k,
  advancing last ticks -> advancing last (take k ticks).
Proof.
  induction ticks as [|env rest IH]; intros last k H.
  - by destruct k.
  - destruct k; [done|]. simpl in *. destruct H as (? & ? & ?). auto.
Qed.

(** C1, as the code has it: on [[Part("A", 4 bars), Part("B", 2 bars)]],
    with three generators, a cache slot per part and tick times that move
    forward, [part_in_song] is still 0 after each of the first five ticks
    (after [k] ticks [bars_played_for_part] is [k]), and becomes 1 on the
    sixth tick, the first one that finds [bars_played_for_part] (5)
    greater than [part_duration] (4); the counter is then reset to 0
    before that tick counts its own bar. *)
Theorem part_advances_on_sixth_tick
    gens dq trim add self_caches now ticks :
  (3 <= length gens)%nat ->
  has_keys structure_AB self_caches ->
  length ticks = 6%nat ->
  advancing now ticks ->
  exists st0,
    run_init structure_AB self_caches now = Ok st0
    /\ (forall k, (k <= 5)%nat ->
          exists st,
            iterations gens dq structure_AB trim add st0 (take k ticks)
            = Ok (Continue st)
            /\ part_in_song st = 0%nat
            /\ bars_played_for_part st = Z.of_nat k)
    /\ exists st6,
         iterations gens dq structure_AB trim add st0 ticks = Ok (Continue st6)
         /\ part_in_song st6 = 1%nat
         /\ bars_played_for_part st6 = 1%Z
         /\ part_duration st6 = 2%Z.
Proof.
  intros Hg Hk Hlen Hadv. eexists. split; [reflexivity|]. split.
  - intros k Hle.
    destruct (iterations_count gens dq structure_AB trim add (take k ticks)
                (mkLoopState self_caches false
                   (mkPlayers [StartPlayback empty_sequence]
                      [StartPlayback empty_sequence]
                      [StartPlayback empty_sequence]
                      [StartPlayback empty_sequence])
                   [] now empty_sequence 0 0 0 0%Z 0%Z 4%Z)
                k (0%nat, Z.of_nat k, 4%Z)) as (st & Hit & Hc);
      try done.
    + rewrite length_take. lia.
    + by apply advancing_take.
    + do 6 (destruct k as [|k]; [reflexivity|]). lia.
    + exists st. split; [exact Hit|]. unfold counters in Hc.
      by injection Hc as -> -> _.
  - destruct (iterations_count gens dq structure_AB trim add ticks
                (mkLoopState self_caches false
                   (mkPlayers [StartPlayback empty_sequence]
                      [StartPlayback empty_sequence]
                      [StartPlayback empty_sequence]
                      [StartPlayback empty_sequence])
                   [] now empty_sequence 0 0 0 0%Z 0%Z 4%Z)
                6 (1%nat, 1%Z, 2%Z)) as (st & Hit & Hc);
      try done.
    exists st. split; [exact Hit|]. unfold counters in Hc.
    by injection Hc as -> -> ->.
Qed.

(** The claim C1 fails as it is stated: with ticks at 1, 2, 3, 4, 5
    ([tick_duration = 1.0]) the fifth tick leaves [part_in_song] at 0. *)
Lemma fifth_tick_does_not_advance :
  exists st5,
    iterations_AB start_AB (ticks_from 1 5 (1 # 10)) = Ok (Continue st5)
    /\ run_init structure_AB caches_AB 0 = Ok start_AB
    /\ part_in_song st5 = 0%nat
    /\ part_in_song st5 <> 1%nat.
Proof.
  eexists. split; [vm_compute; reflexivity|].
  split; [reflexivity|]. split; [reflexivity|]. discriminate.
Qed.

(** ** Instances and their caches *)

Ltac own_attr :=
  repeat first
    [ rewrite lookup_insert_eq
    | rewrite lookup_insert_ne by done ];
  simpl.

Ltac own_attr_in H :=
  repeat (first
    [ rewrite lookup_insert_eq in H
    | rewrite lookup_insert_ne in H by done ];
  simpl in H).

Lemma dict_of_names_keys (structure : list Part) :
  forall (d : gmap string (option CacheItem)) (key : string),
    is_Some (d !! key) \/ (exists part, part ∈ structure /\ name part = key) ->
    is_Some (foldl (fun d part => <[name part := None]> d) d structure !! key).
Proof.
  induction structure as [|p rest IH]; intros d key H; simpl.
  - destruct H as [H|(part & Hin & _)]; [done|by apply elem_of_nil in Hin].
  - apply IH. destruct H as [H|(part & Hin & Hn)].
    + left. destruct (decide (key = name p)) as [->|Hne].
      * by rewrite lookup_insert_eq.
      * by rewrite lookup_insert_ne.
    + apply elem_of_cons in Hin as [->|Hin].
      * left. subst key. by rewrite lookup_insert_eq.
      * right. eauto.
Qed.

(** The caches that the constructor builds have a slot for every part. *)
Lemma dict_of_names_has_keys structure :
  has_keys structure
    (mkCaches (dict_of_names structure) (dict_of_names structure)
       (dict_of_names structure)).
Proof.
  unfold has_keys. apply Forall_forall. intros part Hin tr.
  destruct tr; simpl; apply dict_of_names_keys; right; eauto.
Qed.

Lemma init_inv cls structure clock_signal tick_duration h self h' :
  ObjectModel.__init__ cls structure clock_signal tick_duration h = Ok (self, h') ->
  h' = h ++ [dict_of_names structure; dict_of_names structure;
             dict_of_names structure]
  /\ ObjectModel.cache_object cls self "MELODY_CACHE" = Ok (length h)
  /\ ObjectModel.cache_object cls self "BASS_CACHE" = Ok (S (length h))
  /\ ObjectModel.cache_object cls self "DRUM_CACHE" = Ok (S (S (length h))).
Proof.
  unfold ObjectModel.__init__. intros H.
  destruct (negb _); [discriminate|].
  unfold ObjectModel.getattr, ObjectModel.new_dict in H.
  own_attr_in H. injection H as <- <-.
  rewrite <- !app_assoc, !length_app. simpl.
  unfold ObjectModel.cache_object, ObjectModel.getattr.
  repeat split; own_attr; f_equal; lia.
Qed.

(** The caches that [run] finds on an instance are the ones its
    constructor has made. *)
Lemma init_instance_caches cls structure clock_signal tick_duration h self h' :
  ObjectModel.__init__ cls structure clock_signal tick_duration h = Ok (self, h') ->
  ObjectModel.instance_caches cls self h'
  = Ok (mkCaches (dict_of_names structure) (dict_of_names structure)
          (dict_of_names structure)).
Proof.
  intros H. apply init_inv in H as (-> & Hm & Hb & Hd).
  unfold ObjectModel.instance_caches. rewrite Hm, Hb, Hd. simpl.
  rewrite !lookup_app_r by lia.
  replace (length h - length h)%nat with 0%nat by lia.
  replace (S (length h) - length h)%nat with 1%nat by lia.
  replace (S (S (length h)) - length h)%nat with 2%nat by lia.
  reflexivity.
Qed.

Lemma cache_object_cases cls self attr l :
  attr ∈ ["MELODY_CACHE"; "BASS_CACHE"; "DRUM_CACHE"] ->
  forall n,
    ObjectModel.cache_object cls self "MELODY_CACHE" = Ok n ->
    ObjectModel.cache_object cls self "BASS_CACHE" = Ok (S n) ->
    ObjectModel.cache_object cls self "DRUM_CACHE" = Ok (S (S n)) ->
    ObjectModel.cache_object cls self attr = Ok l ->
    (n <= l < n + 3)%nat.
Proof.
  intros Hin n Hm Hb Hd Hl.
  repeat (apply elem_of_cons in Hin as [->|Hin]);
    [| | |by apply elem_of_nil in Hin].
  - rewrite Hm in Hl. injection Hl as <-. lia.
  - rewrite Hb in Hl. injection Hl as <-. lia.
  - rewrite Hd in Hl. injection Hl as <-. lia.
Qed.

Lemma setitem_elsewhere cls self self' h attr key item h3 attr' key' l l' :
  ObjectModel.cache_object cls self attr = Ok l ->
  ObjectModel.cache_object cls self' attr' = Ok l' ->
  l <> l' ->
  ObjectModel.cache_setitem cls self h attr key item = Ok h3 ->
  ObjectModel.cache_getitem cls self' h3 attr' key'
  = ObjectModel.cache_getitem cls self' h attr' key'.
Proof.
  intros Hl Hl' Hne Hset.
  unfold ObjectModel.cache_setitem in Hset. rewrite Hl in Hset. simpl in Hset.
  destruct (h !! l) as [d|]; [|discriminate]. injection Hset as <-.
  unfold ObjectModel.cache_getitem. rewrite Hl'. simpl.
  by rewrite list_lookup_insert_ne.
Qed.

Lemma setitem_here cls self h attr key item h3 :
  ObjectModel.cache_setitem cls self h attr key item = Ok h3 ->
  ObjectModel.cache_getitem cls self h3 attr key = Ok item.
Proof.
  unfold ObjectModel.cache_setitem, ObjectModel.cache_getitem. intros H.
  destruct (ObjectModel.cache_object cls self attr) as [l|]; [|discriminate].
  simpl in *. destruct (h !! l) as [d|] eqn:E; [|discriminate].
  injection H as <-. rewrite list_lookup_insert_eq.
  - by rewrite lookup_insert_eq.
  - eapply lookup_lt_Some; eauto.
Qed.

(** C8, as the code has it: the class statement gives the class three
    dicts, but [__init__] binds [MELODY_CACHE], [BASS_CACHE] and
    [DRUM_CACHE] on the instance to three new dicts.  For two instances
    constructed one after the other, the caches of one and the caches of
    the other are distinct objects: an entry written through one
    instance is read back through that instance and leaves every cache
    read through the other instance unchanged. *)
Theorem instances_own_their_caches
    cls structure1 clock1 td1 structure2 clock2 td2 h self1 h1 self2 h2 :
  ObjectModel.__init__ cls structure1 clock1 td1 h = Ok (self1, h1) ->
  ObjectModel.__init__ cls structure2 clock2 td2 h1 = Ok (self2, h2) ->
  let cache_names := ["MELODY_CACHE"; "BASS_CACHE"; "DRUM_CACHE"] in
  (forall attr attr' l l',
     attr ∈ cache_names -> attr' ∈ cache_names ->
     ObjectModel.cache_object cls self1 attr = Ok l ->
     ObjectModel.cache_object cls self2 attr' = Ok l' ->
     l <> l')
  /\ (forall attr,
        attr ∈ cache_names ->
        (exists l, ObjectModel.cache_object cls self1 attr = Ok l)
        /\ (exists l, ObjectModel.cache_object cls self2 attr = Ok l))
  /\ (forall attr key item h3 attr' key',
        attr ∈ cache_names -> attr' ∈ cache_names ->
        ObjectModel.cache_setitem cls self1 h2 attr key item = Ok h3 ->
        ObjectModel.cache_getitem cls self1 h3 attr key = Ok item
        /\ ObjectModel.cache_getitem cls self2 h3 attr' key'
           = ObjectModel.cache_getitem cls self2 h2 attr' key')
  /\ (forall attr key item h3 attr' key',
        attr ∈ cache_names -> attr' ∈ cache_names ->
        ObjectModel.cache_setitem cls self2 h2 attr key item = Ok h3 ->
        ObjectModel.cache_getitem cls self2 h3 attr key = Ok item
        /\ ObjectModel.cache_getitem cls self1 h3 attr' key'
           = ObjectModel.cache_getitem cls self1 h2 attr' key').
Proof.
  intros H1 H2 names.
  apply init_inv in H1 as (-> & M1 & B1 & D1).
  apply init_inv in H2 as (-> & M2 & B2 & D2).
  rewrite length_app in M2, B2, D2. simpl in M2, B2, D2.
  assert (Hsep : forall attr attr' l l',
            attr ∈ names -> attr' ∈ names ->
            ObjectModel.cache_object cls self1 attr = Ok l ->
            ObjectModel.cache_object cls self2 attr' = Ok l' -> l <> l').
  { intros attr attr' l l' Ha Ha' Hl Hl'.
    pose proof (cache_object_cases _ _ _ _ Ha _ M1 B1 D1 Hl).
    pose proof (cache_object_cases _ _ _ _ Ha' _ M2 B2 D2 Hl'). lia. }
  assert (Hex : forall attr, attr ∈ names ->
            (exists l, ObjectModel.cache_object cls self1 attr = Ok l)
            /\ (exists l, ObjectModel.cache_object cls self2 attr = Ok l)).
  { intros attr Ha.
    repeat (apply elem_of_cons in Ha as [->|Ha]);
      [| | |by apply elem_of_nil in Ha]; eauto. }
  split; [exact Hsep|]. split; [exact Hex|]. split.
  - intros attr key item h3 attr' key' Ha Ha' Hset.
    split; [by eapply setitem_here|].
    destruct (Hex attr Ha) as ((l & Hl) & _).
    destruct (Hex attr' Ha') as (_ & (l' & Hl')).
    eapply (setitem_elsewhere _ _ _ _ _ _ _ _ _ _ l l'); eauto.
  - intros attr key item h3 attr' key' Ha Ha' Hset.
    split; [by eapply setitem_here|].
    destruct (Hex attr Ha) as (_ & (l & Hl)).
    destruct (Hex attr' Ha') as ((l' & Hl') & _).
    eapply (setitem_elsewhere _ _ _ _ _ _ _ _ _ _ l l'); eauto.
    intros ->. by eapply (Hsep attr' attr l' l').
Qed.

(** The claim C8 fails as it is stated: an entry written through the
    first instance is read back through it, while the second instance
    still reads [None]. *)
Lemma write_is_not_shared :
  ObjectModel.__init__ (fst the_class) structure_AB None (Some 1)
    (snd the_class) = Ok first_instance
  /\ ObjectModel.__init__ (fst the_class) structure_AB None (Some 1)
       (snd first_instance) = Ok second_instance
  /\ ObjectModel.cache_setitem (fst the_class) (fst first_instance)
       (snd second_instance) "MELODY_CACHE" "A" (Some cached_item)
     = Ok heap_after_write
  /\ ObjectModel.cache_getitem (fst the_class) (fst first_instance)
       heap_after_write "MELODY_CACHE" "A" = Ok (Some cached_item)
  /\ ObjectModel.cache_getitem (fst the_class) (fst second_instance)
       heap_after_write "MELODY_CACHE" "A" = Ok None
  /\ ObjectModel.cache_getitem (fst the_class) (fst second_instance)
       heap_after_write "MELODY_CACHE" "A" <> Ok (Some cached_item).
Proof.
  repeat split; try (vm_compute; reflexivity).
  vm_compute. discriminate.
Qed.

(** * The theorems at concrete inputs *)

Lemma chord_track_is_block_chords_witness :
  (forall ns, notes (magenta_add_track_to_sequence empty_sequence 0%Z ns)
              = map seq_note_of ns)
  /\ Forall2 seq_note_equiv
       (notes (build_chord_sequence magenta_add_track_to_sequence
                 (mkPart "A" 4 [[60; 64; 67]; [55; 59; 62]]%Z) 1))
       (spec_chord_notes [[60; 64; 67]; [55; 59; 62]]%Z 1).
Proof.
  assert (H : forall ns,
             notes (magenta_add_track_to_sequence empty_sequence 0%Z ns)
             = map seq_note_of ns) by reflexivity.
  split; [exact H|].
  exact (chord_track_is_block_chords magenta_add_track_to_sequence
           (mkPart "A" 4 [[60; 64; 67]; [55; 59; 62]]%Z) 1 H).
Defined.

Lemma dispatch_phase_lock_witness :
  tick_AB start_AB first_tick_on_time = Ok (Continue after_first_tick)
  /\ snd (advance_part (handle_panic start_AB)) = 0%Z
  /\ exists m b c d,
       let t := Some (response_start_time after_first_tick) in
       let p := players start_AB in
       player_melody (players after_first_tick)
       = player_melody p ++ [UpdateSequence m t]
       /\ player_bass (players after_first_tick)
          = player_bass p ++ [UpdateSequence b t]
       /\ player_chords (players after_first_tick)
          = player_chords p ++ [UpdateSequence c t]
       /\ player_drums (players after_first_tick)
          = player_drums p ++ [UpdateSequence d t].
Proof.
  assert (H1 : tick_AB start_AB first_tick_on_time
               = Ok (Continue after_first_tick)) by (vm_compute; reflexivity).
  assert (H2 : snd (advance_part (handle_panic start_AB)) = 0%Z)
    by reflexivity.
  split; [exact H1|]. split; [exact H2|].
  destruct (dispatch_phase_lock three_generators 120 structure_AB
              magenta_trim_note_sequence magenta_add_track_to_sequence
              start_AB first_tick_on_time after_first_tick H1 H2)
    as (part & r0 & st1 & r & _ & _ & _ & Hm & Hb & Hc & Hd).
  exists (r_melody r), (r_bass r), (r_chords r), (r_drums r).
  repeat split; assumption.
Defined.


Lemma panic_flushes_once_witness :
  panic (_panic_callback after_first_tick) = true
  /\ stop_is_set second_tick = false
  /\ tick_AB (_panic_callback after_first_tick) second_tick = Ok after_panic_tick
  /\ panic (state_of after_panic_tick) = false
  /\ flush_counts (players (state_of after_panic_tick)) = [1; 1; 1; 1]%nat.
Proof.
  assert (H1 : panic (_panic_callback after_first_tick) = true) by reflexivity.
  assert (H2 : stop_is_set second_tick = false) by reflexivity.
  assert (H3 : tick_AB (_panic_callback after_first_tick) second_tick
               = Ok after_panic_tick) by (vm_compute; reflexivity).
  split; [exact H1|]. split; [exact H2|]. split; [exact H3|].
  destruct (panic_flushes_once three_generators 120 structure_AB
              magenta_trim_note_sequence magenta_add_track_to_sequence
              (_panic_callback after_first_tick) second_tick
              after_panic_tick H1 H2 H3) as (_ & Hp & Hf & _).
  split; [exact Hp|]. rewrite Hf. vm_compute. reflexivity.
Defined.

Lemma cache_hit_after_first_encounter_witness :
  tick_ABA start_ABA (plain_tick 1 (1 # 10)) = Ok (Continue ABA_after_1)
  /\ iterations three_generators 120 structure_ABA magenta_trim_note_sequence
       magenta_add_track_to_sequence ABA_after_1 (ticks_from 2 3 (1 # 10))
     = Ok (Continue ABA_after_4)
  /\ tick_ABA (deliver_signals (plain_tick 5 (1 # 10)) ABA_after_4)
       (plain_tick 5 (1 # 10)) = Ok (Continue ABA_after_5)
  /\ part_in_song ABA_after_5 = 2%nat
  /\ exists new item,
       generator_log ABA_after_5 = generator_log ABA_after_4 ++ new
       /\ Forall (fun c => call_gen_index c <> gen_index Melody) new
       /\ get_cache Melody (caches ABA_after_5) !! "A" = Some (Some item).
Proof.
  assert (H1 : tick_ABA start_ABA (plain_tick 1 (1 # 10))
               = Ok (Continue ABA_after_1)) by (vm_compute; reflexivity).
  assert (H2 : iterations three_generators 120 structure_ABA
                 magenta_trim_note_sequence magenta_add_track_to_sequence
                 ABA_after_1 (ticks_from 2 3 (1 # 10))
               = Ok (Continue ABA_after_4)) by (vm_compute; reflexivity).
  assert (H3 : tick_ABA (deliver_signals (plain_tick 5 (1 # 10)) ABA_after_4)
                 (plain_tick 5 (1 # 10)) = Ok (Continue ABA_after_5))
    by (vm_compute; reflexivity).
  assert (Hb1 : snd (advance_part (handle_panic start_ABA)) = 0%Z)
    by (vm_compute; reflexivity).
  assert (Hp1 : structure_ABA !! fst (advance_part (handle_panic start_ABA))
                = Some (mkPart "A" 1 [[60; 64; 67]]%Z))
    by (vm_compute; reflexivity).
  assert (Hb2 : snd (advance_part
                       (handle_panic
                          (deliver_signals (plain_tick 5 (1 # 10)) ABA_after_4)))
                = 0%Z) by (vm_compute; reflexivity).
  assert (Hp2 : structure_ABA
                  !! fst (advance_part
                            (handle_panic
                               (deliver_signals (plain_tick 5 (1 # 10))
                                  ABA_after_4)))
                = Some (mkPart "A" 1 [[60; 64; 67]]%Z))
    by (vm_compute; reflexivity).
  assert (H4 : part_in_song ABA_after_5 = 2%nat) by (vm_compute; reflexivity).
  split; [exact H1|]. split; [exact H2|]. split; [exact H3|].
  split; [exact H4|].
  destruct (cache_hit_after_first_encounter three_generators 120 structure_ABA
              magenta_trim_note_sequence magenta_add_track_to_sequence
              start_ABA (plain_tick 1 (1 # 10)) ABA_after_1
              (ticks_from 2 3 (1 # 10)) ABA_after_4 (plain_tick 5 (1 # 10))
              ABA_after_5 (mkPart "A" 1 [[60; 64; 67]]%Z)
              (mkPart "A" 1 [[60; 64; 67]]%Z) Melody
              H1 Hb1 Hp1 H2 H3 Hb2 Hp2 eq_refl)
    as (first & st1p & later & st3p & _ & _ & _ & (new & Hlog & Hnew)
        & (item & Hitem & _)).
  exists new, item. split; [exact Hlog|]. split; [exact Hnew|exact Hitem].
Defined.

Lemma part_advances_on_sixth_tick_witness :
  (3 <= length three_generators)%nat
  /\ has_keys structure_AB caches_AB
  /\ advancing 0 (ticks_from 1 6 (1 # 10))
  /\ exists st5 st6,
       iterations_AB start_AB (take 5 (ticks_from 1 6 (1 # 10)))
       = Ok (Continue st5)
       /\ part_in_song st5 = 0%nat
       /\ iterations_AB start_AB (ticks_from 1 6 (1 # 10)) = Ok (Continue st6)
       /\ part_in_song st6 = 1%nat.
Proof.
  assert (H1 : (3 <= length three_generators)%nat) by (simpl; lia).
  assert (H2 : has_keys structure_AB caches_AB).
  { repeat constructor; intros []; vm_compute; eauto. }
  assert (H3 : advancing 0 (ticks_from 1 6 (1 # 10))).
  { simpl. repeat split. }
  split; [exact H1|]. split; [exact H2|]. split; [exact H3|].
  destruct (part_advances_on_sixth_tick three_generators 120
              magenta_trim_note_sequence magenta_add_track_to_sequence
              caches_AB 0 (ticks_from 1 6 (1 # 10)) H1 H2 eq_refl H3)
    as (st0 & Hinit & H5 & st6 & H6 & Hp6 & _).
  injection Hinit as <-.
  destruct (H5 5%nat (le_n 5)) as (st5 & Hit5 & Hp5 & _).
  exists st5, st6. repeat split; assumption.
Defined.

Lemma instances_own_their_caches_witness :
  ObjectModel.__init__ (fst the_class) structure_AB None (Some 1)
    (snd the_class) = Ok first_instance
  /\ ObjectModel.__init__ (fst the_class) structure_AB None (Some 1)
       (snd first_instance) = Ok second_instance
  /\ ObjectModel.cache_getitem (fst the_class) (fst first_instance)
       heap_after_write "MELODY_CACHE" "A" = Ok (Some cached_item)
  /\ ObjectModel.cache_getitem (fst the_class) (fst second_instance)
       heap_after_write "MELODY_CACHE" "A"
     = ObjectModel.cache_getitem (fst the_class) (fst second_instance)
         (snd second_instance) "MELODY_CACHE" "A".
Proof.
  assert (H1 : ObjectModel.__init__ (fst the_class) structure_AB None (Some 1)
                 (snd the_class)
               = Ok (fst first_instance, snd first_instance))
    by (vm_compute; reflexivity).
  assert (H2 : ObjectModel.__init__ (fst the_class) structure_AB None (Some 1)
                 (snd first_instance)
               = Ok (fst second_instance, snd second_instance))
    by (vm_compute; reflexivity).
  split; [exact H1|]. split; [exact H2|].
  destruct (instances_own_their_caches (fst the_class) structure_AB None
              (Some 1) structure_AB None (Some 1) (snd the_class)
              (fst first_instance) (snd first_instance)
              (fst second_instance) (snd second_instance) H1 H2)
    as (_ & _ & Hw & _).
  apply (Hw "MELODY_CACHE" "A" (Some cached_item) heap_after_write
           "MELODY_CACHE" "A").
  - repeat constructor.
  - repeat constructor.
  - vm_compute. reflexivity.
Defined.

(** * Further properties of the code *)

(** ** The accessors *)

Lemma getitem_int_in_range {A : Type} (l : list A) (i : Z) :
  (0 <= i < Z.of_nat (length l))%Z ->
  exists a, getitem_int l i = Ok a /\ l !! Z.to_nat i = Some a.
Proof.
  intros [H0 Hlt]. unfold getitem_int, getitem.
  destruct (0 <=? i)%Z eqn:E; [|apply Z.leb_gt in E; lia].
  destruct (lookup_lt_is_Some_2 l (Z.to_nat i)) as [a Ha]; [lia|].
  rewrite Ha. eauto.
Qed.

(** X4: on a non-empty list [_sequence_generator] never leaves the list:
    it returns the generator at index [val mod len] (index 0 when no
    control value is set), also for negative or large control values;
    on an empty list the remainder raises [ZeroDivisionError]. *)
Theorem sequence_generator_in_range (gens : list Generator) (val : option Z) :
  let v := match val with None => 0%Z | Some v => v end in
  let i := Z.to_nat (v mod Z.of_nat (length gens)) in
  match gens with
  | [] => _sequence_generator gens val = Raise ZeroDivisionError
  | _ :: _ =>
      (i < length gens)%nat
      /\ exists g, _sequence_generator gens val = Ok g /\ gens !! i = Some g
  end.
Proof.
  destruct gens as [|g0 rest]; [reflexivity|]. cbv zeta.
  set (gens := g0 :: rest).
  assert (Hlen : (0 < Z.of_nat (length gens))%Z) by (simpl; lia).
  pose proof (Z.mod_pos_bound
                (match val with None => 0%Z | Some v => v end)
                _ Hlen) as Hb.
  split; [lia|].
  unfold _sequence_generator.
  destruct (length gens =? 1)%nat eqn:E1.
  - apply Nat.eqb_eq in E1. rewrite E1. rewrite Z.mod_1_r.
    destruct (getitem_int_in_range gens 0) as (g & Hg & Hl); [lia|].
    exists g. split; [exact Hg|exact Hl].
  - unfold py_mod.
    destruct (Z.of_nat (length gens) =? 0)%Z eqn:E0;
      [apply Z.eqb_eq in E0; lia|]. simpl.
    destruct (getitem_int_in_range gens
                (match val with None => 0%Z | Some v => v end
                 mod Z.of_nat (length gens))) as (g & Hg & Hl); [lia|].
    exists g. split; [exact Hg|exact Hl].
Qed.

(** X5: a control value in 0..127 gives a temperature in [[0.1, 2.0]],
    0.1 at 0 and 2.0 at 127, larger for a larger value; without a
    control value the temperature is 1. *)
Theorem temperature_range (v w : Z) :
  (0 <= v <= w)%Z -> (w <= 127)%Z ->
  (1 # 10) <= _temperature (Some v)
  /\ _temperature (Some v) <= _temperature (Some w)
  /\ _temperature (Some w) <= 2
  /\ _temperature (Some 0%Z) == 1 # 10
  /\ _temperature (Some 127%Z) == 2
  /\ _temperature None = 1.
Proof.
  intros [H0 Hvw] Hw. unfold _temperature.
  assert (Hv : 0 <= inject_Z v) by (by rewrite (Zle_Qle 0 v) in H0).
  assert (Hvw' : inject_Z v <= inject_Z w) by (by rewrite Zle_Qle in Hvw).
  assert (Hw' : inject_Z w <= 127) by (by rewrite (Zle_Qle w 127) in Hw).
  assert (E : forall x, inject_Z x / 127 == inject_Z x * (1 # 127))
    by (intros x; field).
  rewrite !E. repeat split; try lra; reflexivity.
Qed.


(** ** The constructor *)

Lemma dict_of_names_lookup (structure : list Part) :
  forall (d : gmap string (option CacheItem)) (key : string),
    foldl (fun d part => <[name part := None]> d) d structure !! key
    = if decide (key ∈ map name structure) then Some None else d !! key.
Proof.
  induction structure as [|p rest IH]; intros d key; simpl.
  - reflexivity.
  - rewrite IH. destruct (decide (key ∈ map name rest)) as [Hin|Hnin].
    + rewrite decide_True; [done|]. by apply elem_of_cons; right.
    + destruct (decide (key = name p)) as [->|Hne].
      * rewrite lookup_insert_eq.
        rewrite decide_True; [done|]. by apply elem_of_cons; left.
      * rewrite lookup_insert_ne by done.
        rewrite decide_False; [done|].
        intros [?|?]%elem_of_cons; congruence.
Qed.

(** With exactly one tick source the constructor succeeds and adds
    three dicts to the heap. *)
Lemma init_with_one_tick_source
    cls structure (clock_signal : option string) (tick_duration : option Q) h :
  ObjectModel.count_none clock_signal tick_duration = 1%nat ->
  exists self h',
    ObjectModel.__init__ cls structure clock_signal tick_duration h
    = Ok (self, h')
    /\ length h' = (length h + 3)%nat.
Proof.
  intros Hc. unfold ObjectModel.__init__. rewrite Hc.
  unfold ObjectModel.getattr, ObjectModel.new_dict.
  simpl. own_attr. eexists _, _. split; [reflexivity|].
  rewrite !length_app. simpl. lia.
Qed.

(** X6: [__init__] succeeds exactly when one of [clock_signal] and
    [tick_duration] is given, and then adds three dicts to the heap;
    with both or neither it raises [ValueError]. *)
Theorem init_needs_one_tick_source
    cls structure (clock_signal : option string) (tick_duration : option Q) h :
  match clock_signal, tick_duration with
  | Some _, None | None, Some _ =>
      exists self h',
        ObjectModel.__init__ cls structure clock_signal tick_duration h
        = Ok (self, h')
        /\ length h' = (length h + 3)%nat
  | _, _ =>
      ObjectModel.__init__ cls structure clock_signal tick_duration h
      = Raise ValueError
  end.
Proof.
  destruct clock_signal as [c|], tick_duration as [t|]; try reflexivity;
    by apply init_with_one_tick_source.
Qed.

(** X7: each cache of a new instance has exactly the names of the
    structure's parts as keys, all bound to [None]: reading a part name
    gives [None] (also for a name that occurs twice), reading any other
    key raises [KeyError]. *)
Theorem init_caches_hold_the_part_names
    cls structure clock_signal tick_duration h self h' attr key :
  ObjectModel.__init__ cls structure clock_signal tick_duration h = Ok (self, h') ->
  attr ∈ ["MELODY_CACHE"; "BASS_CACHE"; "DRUM_CACHE"] ->
  ObjectModel.cache_getitem cls self h' attr key
  = if decide (key ∈ map name structure) then Ok None else Raise KeyError.
Proof.
  intros H Ha. apply init_inv in H as (-> & Hm & Hb & Hd).
  unfold ObjectModel.cache_getitem.
  assert (Hk : dict_of_names structure !! key
               = if decide (key ∈ map name structure) then Some None else None).
  { unfold dict_of_names. rewrite dict_of_names_lookup.
    by rewrite lookup_empty. }
  repeat (apply elem_of_cons in Ha as [->|Ha]);
    [| | |by apply elem_of_nil in Ha].
  - rewrite Hm. simpl. rewrite lookup_app_r by lia.
    replace (length h - length h)%nat with 0%nat by lia. simpl.
    rewrite Hk. by case_decide.
  - rewrite Hb. simpl. rewrite lookup_app_r by lia.
    replace (S (length h) - length h)%nat with 1%nat by lia. simpl.
    rewrite Hk. by case_decide.
  - rewrite Hd. simpl. rewrite lookup_app_r by lia.
    replace (S (S (length h)) - length h)%nat with 2%nat by lia. simpl.
    rewrite Hk. by case_decide.
Qed.

(** X8: constructing an instance leaves every dict that existed before
    as it was, and so does every later write to a cache of the new
    instance: the class-level dicts and the caches of earlier instances
    are never touched through the new instance. *)
Theorem init_leaves_existing_dicts
    cls structure clock_signal tick_duration h self h' :
  ObjectModel.__init__ cls structure clock_signal tick_duration h = Ok (self, h') ->
  (forall l d, h !! l = Some d -> h' !! l = Some d)
  /\ (forall attr key item h'',
        attr ∈ ["MELODY_CACHE"; "BASS_CACHE"; "DRUM_CACHE"] ->
        ObjectModel.cache_setitem cls self h' attr key item = Ok h'' ->
        forall l d, h !! l = Some d -> h'' !! l = Some d).
Proof.
  intros H. apply init_inv in H as (-> & Hm & Hb & Hd).
  assert (Hold : forall l d, h !! l = Some d ->
            (h ++ [dict_of_names structure; dict_of_names structure;
                   dict_of_names structure]) !! l = Some d).
  { intros l d Hl. by apply lookup_app_l_Some. }
  split; [exact Hold|].
  intros attr key item h'' Ha Hset l d Hl.
  unfold ObjectModel.cache_setitem in Hset.
  destruct (ObjectModel.cache_object cls self attr) as [l0|] eqn:E;
    [|discriminate].
  pose proof (cache_object_cases _ _ _ _ Ha _ Hm Hb Hd E) as Hr.
  simpl in Hset. destruct (_ !! l0) as [d0|]; [|discriminate].
  injection Hset as <-.
  rewrite list_lookup_insert_ne.
  - by apply Hold.
  - apply lookup_lt_Some in Hl. lia.
Qed.

(** The two concrete instances are what the constructor returns. *)
Lemma first_instance_built :
  ObjectModel.__init__ (fst the_class) structure_AB None (Some 1)
    (snd the_class) = Ok (fst first_instance, snd first_instance).
Proof.
  destruct (init_with_one_tick_source (fst the_class) structure_AB None
              (Some 1) (snd the_class)) as (self & h' & H & _);
    [reflexivity|].
  unfold first_instance. rewrite H. reflexivity.
Qed.

Lemma init_caches_hold_the_part_names_witness :
  "BASS_CACHE" ∈ ["MELODY_CACHE"; "BASS_CACHE"; "DRUM_CACHE"]
  /\ ObjectModel.cache_getitem (fst the_class) (fst first_instance)
       (snd first_instance) "BASS_CACHE" "B"
     = if decide ("B" ∈ map name structure_AB) then Ok None else Raise KeyError.
Proof.
  assert (Ha : "BASS_CACHE" ∈ ["MELODY_CACHE"; "BASS_CACHE"; "DRUM_CACHE"])
    by (repeat constructor).
  split; [exact Ha|].
  exact (init_caches_hold_the_part_names (fst the_class) structure_AB None
           (Some 1) (snd the_class) (fst first_instance) (snd first_instance)
           "BASS_CACHE" "B" first_instance_built Ha).
Defined.

Lemma init_leaves_existing_dicts_witness :
  snd the_class !! 0%nat = Some ∅
  /\ snd first_instance !! 0%nat = Some ∅.
Proof.
  assert (H : snd the_class !! 0%nat = Some (∅ : gmap string (option CacheItem)))
    by reflexivity.
  split; [exact H|].
  exact (proj1 (init_leaves_existing_dicts (fst the_class) structure_AB None
                  (Some 1) (snd the_class) (fst first_instance)
                  (snd first_instance) first_instance_built) 0%nat ∅ H).
Defined.


(** ** The counters of the loop *)

Section LoopCounters.

Variable _sequence_generators : list Generator.
Variable _default_qpm : Q.
Variable STRUCTURE : list Part.
Variable trim_note_sequence : NoteSequence -> Q -> Q -> NoteSequence.
Variable add_track_to_sequence : NoteSequence -> Z -> list Note -> NoteSequence.

Local Abbreviation tick' :=
  (tick _sequence_generators _default_qpm STRUCTURE trim_note_sequence
     add_track_to_sequence).
Local Abbreviation iterations' :=
  (iterations _sequence_generators _default_qpm STRUCTURE trim_note_sequence
     add_track_to_sequence).
Local Abbreviation prepare_response' :=
  (prepare_response _sequence_generators trim_note_sequence
     add_track_to_sequence).

(** The counters after a tick that reaches the end of the body. *)
Lemma tick_continue_counters st env st' :
  tick' st env = Ok (Continue st') ->
  part_in_song st' = fst (advance_part st)
  /\ bars_played_for_part st' = (snd (advance_part st) + 1)%Z
  /\ bars_played st' = (bars_played st + 1)%Z
  /\ last_tick_time st' = total_time (captured_sequence env)
  /\ exists part,
       STRUCTURE !! fst (advance_part st) = Some part
       /\ part_duration st' = duration part.
Proof.
  intros H.
  destruct (handle_panic_keeps st) as (_ & _ & Ki & Kb & _).
  assert (Kp : bars_played (handle_panic st) = bars_played st)
    by (unfold handle_panic; by destruct (panic st)).
  pose proof (tick_continue_inv _ _ _ _ _ _ _ _ H) as Hi. cbv zeta in Hi.
  rewrite Ki, Kb in Hi.
  destruct Hi as (_ & part & Hp & [(_ & ->)|(Hb & r0 & st1 & r & Hprep & _ & ->)]).
  - simpl. rewrite Kp. repeat split. by exists part.
  - apply prepare_response_inv in Hprep. cbv zeta in Hprep.
    destruct Hprep as (_ & _ & Hf & _).
    destruct Hf as (_ & _ & F3 & _ & _ & _ & F7 & F8 & F9 & F10).
    simpl in *. rewrite F7, F8, F9, F10, F3, Kp. repeat split. by exists part.
Qed.

(** The counters after a tick that leaves the loop. *)
Lemma tick_break_counters st env st' :
  tick' st env = Ok (Break st') ->
  bars_played st' = bars_played st
  /\ (part_in_song st' = part_in_song st
      \/ (part_in_song st' = fst (advance_part st)
          /\ (length STRUCTURE <= part_in_song st')%nat)).
Proof.
  unfold tick. intros H.
  destruct (handle_panic_keeps st) as (_ & _ & Ki & Kb & _).
  assert (Kp : bars_played (handle_panic st) = bars_played st)
    by (unfold handle_panic; by destruct (panic st)).
  destruct (stop_is_set env). { injection H as <-. auto. }
  destruct (advance_part (handle_panic st)) as [i b] eqn:Ea. simpl in Ki.
  destruct (length STRUCTURE <=? i)%nat eqn:El.
  - injection H as <-. simpl. apply Nat.leb_le in El. rewrite <- Ki. auto.
  - unfold getitem in H. destruct (STRUCTURE !! i); [|discriminate].
    simpl in H. destruct (b =? 0)%Z; simpl in H; [|discriminate].
    bind_inv H. discriminate.
Qed.

Lemma advance_part_step st :
  (part_in_song st <= fst (advance_part st) <= S (part_in_song st))%nat.
Proof.
  unfold advance_part.
  destruct (part_duration st <? bars_played_for_part st)%Z; simpl; lia.
Qed.

(** X9: over any number of ticks [part_in_song] never decreases, grows
    by at most one per tick and, started inside the structure, never
    passes [len(STRUCTURE)]; it is inside the structure as long as the
    loop goes on. *)
Theorem part_in_song_monotone ticks : forall st o,
  iterations' st ticks = Ok o ->
  (part_in_song st < length STRUCTURE)%nat ->
  (part_in_song st <= part_in_song (state_of o)
   <= part_in_song st + length ticks)%nat
  /\ (part_in_song (state_of o) <= length STRUCTURE)%nat
  /\ match o with
     | Continue st' => (part_in_song st' < length STRUCTURE)%nat
     | Break _ => True
     end.
Proof.
  induction ticks as [|env rest IH]; intros st o H Hin; simpl in H.
  - injection H as <-. simpl. lia.
  - destruct (deliver_signals_keeps env st) as (_ & _ & _ & Da & _).
    assert (Dp : part_in_song (deliver_signals env st) = part_in_song st)
      by (unfold deliver_signals; by destruct (panic_received env)).
    pose proof (advance_part_step st) as Hstep.
    destruct (tick' (deliver_signals env st) env) as [[st1|st1]|e] eqn:Et;
      [| |discriminate].
    + apply tick_continue_counters in Et. rewrite Da in Et.
      destruct Et as (Hp & _ & _ & _ & part & Hpart & _).
      apply lookup_lt_Some in Hpart. rewrite <- Hp in Hpart.
      destruct (IH st1 o H Hpart) as (Hm & Hb & Hc).
      simpl. repeat split; try lia; assumption.
    + injection H as <-. apply tick_break_counters in Et.
      rewrite Da, Dp in Et. destruct Et as (_ & [Hs|(Hs & Hl)]); simpl; lia.
Qed.

(** X10: [bars_played] counts the ticks that ran to the end of the loop
    body: one more per tick while the loop goes on, and the tick on
    which the loop is left is not counted. *)
Theorem bars_played_counts_ticks ticks : forall st o,
  iterations _sequence_generators _default_qpm STRUCTURE trim_note_sequence
    add_track_to_sequence st ticks = Ok o ->
  match o with
  | Continue st' => bars_played st' = (bars_played st + Z.of_nat (length ticks))%Z
  | Break st' =>
      (bars_played st <= bars_played st'
       < bars_played st + Z.of_nat (length ticks))%Z
  end.
Proof.
  induction ticks as [|env rest IH]; intros st o H; simpl in H.
  - injection H as <-. simpl. lia.
  - assert (Dp : bars_played (deliver_signals env st) = bars_played st)
      by (unfold deliver_signals; by destruct (panic_received env)).
    destruct (tick' (deliver_signals env st) env) as [[st1|st1]|e] eqn:Et;
      [| |discriminate].
    + apply tick_continue_counters in Et.
      destruct Et as (_ & _ & Hb & _). rewrite Dp in Hb.
      specialize (IH st1 o H). destruct o; simpl length; lia.
    + injection H as <-. apply tick_break_counters in Et.
      destruct Et as (Hb & _). rewrite Dp in Hb. simpl length. lia.
Qed.

End LoopCounters.


(** ** Generator calls and player calls *)

Lemma extended_by_updates_iff p p' :
  extended_by_updates p p' <->
  (exists n, player_melody p' = player_melody p ++ n /\ Forall is_update n)
  /\ (exists n, player_bass p' = player_bass p ++ n /\ Forall is_update n)
  /\ (exists n, player_chords p' = player_chords p ++ n /\ Forall is_update n)
  /\ (exists n, player_drums p' = player_drums p ++ n /\ Forall is_update n).
Proof.
  unfold extended_by_updates, player_logs. split.
  - intros H.
    apply Forall2_cons_1 in H as (Hm & H).
    apply Forall2_cons_1 in H as (Hb & H).
    apply Forall2_cons_1 in H as (Hc & H).
    apply Forall2_cons_1 in H as (Hd & _). auto.
  - intros (Hm & Hb & Hc & Hd). repeat constructor; assumption.
Qed.

Lemma extended_by_updates_refl p : extended_by_updates p p.
Proof.
  apply extended_by_updates_iff.
  repeat split; exists []; by rewrite app_nil_r.
Qed.

Lemma extended_by_updates_trans p1 p2 p3 :
  extended_by_updates p1 p2 -> extended_by_updates p2 p3 ->
  extended_by_updates p1 p3.
Proof.
  rewrite !extended_by_updates_iff.
  intros ((m1 & Em1 & Fm1) & (b1 & Eb1 & Fb1) & (c1 & Ec1 & Fc1)
          & (d1 & Ed1 & Fd1))
         ((m2 & Em2 & Fm2) & (b2 & Eb2 & Fb2) & (c2 & Ec2 & Fc2)
          & (d2 & Ed2 & Fd2)).
  repeat split.
  - exists (m1 ++ m2). rewrite Em2, Em1, app_assoc. split; [done|].
    by apply Forall_app.
  - exists (b1 ++ b2). rewrite Eb2, Eb1, app_assoc. split; [done|].
    by apply Forall_app.
  - exists (c1 ++ c2). rewrite Ec2, Ec1, app_assoc. split; [done|].
    by apply Forall_app.
  - exists (d1 ++ d2). rewrite Ed2, Ed1, app_assoc. split; [done|].
    by apply Forall_app.
Qed.

Lemma extended_by_call_players m b c d p :
  is_update m -> is_update b -> is_update c -> is_update d ->
  extended_by_updates p (call_players m b c d p).
Proof.
  intros Hm Hb Hc Hd. apply extended_by_updates_iff.
  unfold call_players. simpl.
  repeat split; eexists; (split; [reflexivity|]); by repeat constructor.
Qed.

Lemma extended_by_handle_panic st :
  extended_by_updates (players st) (players (handle_panic st)).
Proof.
  unfold handle_panic, flush. destruct (panic st); simpl.
  - by apply extended_by_call_players.
  - apply extended_by_updates_refl.
Qed.

Section LoopTraces.

Variable _sequence_generators : list Generator.
Variable _default_qpm : Q.
Variable STRUCTURE : list Part.
Variable trim_note_sequence : NoteSequence -> Q -> Q -> NoteSequence.
Variable add_track_to_sequence : NoteSequence -> Z -> list Note -> NoteSequence.

Local Abbreviation tick' :=
  (tick _sequence_generators _default_qpm STRUCTURE trim_note_sequence
     add_track_to_sequence).
Local Abbreviation iterations' :=
  (iterations _sequence_generators _default_qpm STRUCTURE trim_note_sequence
     add_track_to_sequence).
Local Abbreviation run' :=
  (run _sequence_generators _default_qpm STRUCTURE trim_note_sequence
     add_track_to_sequence).

Lemma calls_of_index slot tr env captured t d :
  map call_gen_index (calls_of slot (miss_call tr env captured t d))
  = match slot with Some (Some _) => [] | _ => [gen_index tr] end.
Proof. by destruct slot as [[?|]|]. Qed.

(** X11: a tick sends at most one call to each generator, in the order
    melody (0), bass (1), drums (2); it sends none when it is not at the
    start of a part and none when it leaves the loop. *)
Theorem generator_calls_of_a_tick st env o :
  tick' st env = Ok o ->
  exists new,
    generator_log (state_of o) = generator_log st ++ new
    /\ map call_gen_index new `sublist_of` [0; 1; 2]%nat
    /\ (snd (advance_part st) <> 0%Z -> new = [])
    /\ match o with
       | Break _ => new = []
       | Continue _ => True
       end.
Proof.
  intros H. destruct (handle_panic_keeps st) as (_ & Kl & Ki & Kb & _).
  destruct o as [st'|st'].
  - pose proof (tick_continue_inv _ _ _ _ _ _ _ _ H) as Hi. cbv zeta in Hi.
    destruct Hi as (_ & part & _ & [(Hn & ->)|(Hb & _)]).
    + exists []. simpl. rewrite app_nil_r, Kl.
      repeat split; try done. apply sublist_nil_l.
    + destruct (tick_start_of_part _ _ _ _ _ _ _ _ H Hb)
        as (p & r0 & st1 & r & _ & Hprep & _ & _ & _ & _ & Hlog & _).
      apply prepare_response_inv in Hprep. cbv zeta in Hprep.
      destruct Hprep as (_ & Hl & _). simpl in Hl. rewrite Kl in Hl.
      eexists. simpl. split; [by rewrite Hlog, Hl|].
      split.
      * rewrite !map_app, !calls_of_index.
        destruct (MELODY_CACHE _ !! _) as [[?|]|];
          destruct (BASS_CACHE _ !! _) as [[?|]|];
          destruct (DRUM_CACHE _ !! _) as [[?|]|];
          simpl; repeat constructor.
      * split; [|done]. intros Hne. rewrite <- Kb in Hne. contradiction.
  - exists []. simpl. rewrite app_nil_r. apply tick_break_inv in H.
    destruct H as [(_ & ->)|(_ & _ & _ & _ & _ & _ & ->)];
      repeat split; try done; apply sublist_nil_l.
Qed.

Lemma tick_extends_players st env o :
  tick' st env = Ok o ->
  extended_by_updates (players st) (players (state_of o)).
Proof.
  intros H. destruct (stop_is_set env) eqn:Es.
  - rewrite (tick_stopped _ _ _ _ _ _ _ Es) in H. injection H as <-.
    apply extended_by_updates_refl.
  - destruct (tick_players _ _ _ _ _ _ _ _ H Es) as (_ & [->|(r & ->)]).
    + apply extended_by_handle_panic.
    + eapply extended_by_updates_trans; [apply extended_by_handle_panic|].
      by apply extended_by_call_players.
Qed.

Lemma iterations_extend_players ticks : forall st o,
  iterations' st ticks = Ok o ->
  extended_by_updates (players st) (players (state_of o)).
Proof.
  induction ticks as [|env rest IH]; intros st o H; simpl in H.
  - injection H as <-. apply extended_by_updates_refl.
  - destruct (deliver_signals_keeps env st) as (_ & _ & Dp & _).
    destruct (tick' (deliver_signals env st) env) as [[st1|st1]|e] eqn:Et;
      [| |discriminate].
    + apply tick_extends_players in Et. rewrite Dp in Et.
      eapply extended_by_updates_trans; [exact Et|]. by apply IH.
    + injection H as <-. apply tick_extends_players in Et.
      by rewrite Dp in Et.
Qed.

(** X12: whenever [run] returns (stop flag, end of the structure or end
    of the ticks), each of the four players has been started with the
    empty sequence, has then received only sequence updates, and has
    been stopped exactly once, as its last call. *)
Theorem run_stops_every_player self_caches now ticks st :
  run' self_caches now ticks = Ok st ->
  Forall (fun log =>
            exists updates,
              log = StartPlayback empty_sequence :: updates ++ [StopPlayer]
              /\ Forall is_update updates)
    (player_logs (players st)).
Proof.
  unfold run. intros H.
  destruct (run_init STRUCTURE self_caches now) as [st0|] eqn:Ei;
    [|discriminate].
  simpl in H.
  destruct (loop _ _ _ _ _ st0 ticks) as [st1|] eqn:El; [|discriminate].
  simpl in H. injection H as <-.
  unfold run_init in Ei.
  destruct (getitem STRUCTURE 0) as [part|]; [|discriminate].
  simpl in Ei. injection Ei as <-.
  unfold loop in El.
  destruct (iterations _ _ _ _ _ _ ticks) as [o|] eqn:Eo; [|discriminate].
  simpl in El.
  assert (st1 = state_of o) as -> by (destruct o; by injection El as <-).
  apply iterations_extend_players in Eo.
  apply extended_by_updates_iff in Eo. simpl in Eo.
  destruct Eo as ((m & Em & Fm) & (b & Eb & Fb) & (c & Ec & Fc) & (d & Ed & Fd)).
  unfold stop_players, player_logs, call_players. simpl.
  rewrite Em, Eb, Ec, Ed. simpl.
  repeat constructor; eexists; (split; [reflexivity|assumption]).
Qed.

End LoopTraces.


(** ** Exceptions of the loop *)

Section LoopErrors.

Variable _sequence_generators : list Generator.
Variable _default_qpm : Q.
Variable STRUCTURE : list Part.
Variable trim_note_sequence : NoteSequence -> Q -> Q -> NoteSequence.
Variable add_track_to_sequence : NoteSequence -> Z -> list Note -> NoteSequence.

Local Abbreviation tick' :=
  (tick _sequence_generators _default_qpm STRUCTURE trim_note_sequence
     add_track_to_sequence).
Local Abbreviation iterations' :=
  (iterations _sequence_generators _default_qpm STRUCTURE trim_note_sequence
     add_track_to_sequence).
Local Abbreviation run' :=
  (run _sequence_generators _default_qpm STRUCTURE trim_note_sequence
     add_track_to_sequence).
Local Abbreviation prepare_response' :=
  (prepare_response _sequence_generators trim_note_sequence
     add_track_to_sequence).
Local Abbreviation lookup_or_generate' :=
  (lookup_or_generate _sequence_generators trim_note_sequence).

(** A cache block on an existing slot fails only for want of a
    generator. *)
Lemma lookup_raise tr part env captured t st e :
  lookup_or_generate' tr part env captured t st = Raise e ->
  is_Some (get_cache tr (caches st) !! name part) ->
  e = IndexError
  /\ get_cache tr (caches st) !! name part = Some None
  /\ (length _sequence_generators <= gen_index tr)%nat.
Proof.
  intros H [[item|] Hs].
  - by rewrite (lookup_hit _ _ _ _ _ _ _ _ _ Hs) in H.
  - unfold lookup_or_generate, _generate, getitem in H. rewrite Hs in H.
    destruct (_sequence_generators !! gen_index tr) eqn:Eg; [discriminate|].
    simpl in H. injection H as <-.
    apply lookup_ge_None in Eg. auto.
Qed.

Lemma gen_index_lt_3 tr : (gen_index tr < 3)%nat.
Proof. destruct tr; simpl; lia. Qed.

Lemma prepare_raise env part captured st e :
  prepare_response' env part captured st = Raise e ->
  (forall tr, is_Some (get_cache tr (caches st) !! name part)) ->
  e = IndexError /\ (length _sequence_generators < 3)%nat.
Proof.
  unfold prepare_response. intros H Hk.
  destruct (lookup_or_generate' Melody part env captured
              (response_start_time st) st) as [[[sm tm] stm]|e1] eqn:Em.
  2:{ simpl in H. injection H as <-.
      destruct (lookup_raise _ _ _ _ _ _ _ Em (Hk Melody)) as (-> & _ & Hl).
      pose proof (gen_index_lt_3 Melody). split; [done|lia]. }
  simpl in H.
  destruct (lookup_or_generate' Bass part env captured tm stm)
    as [[[sb tb] stb]|e1] eqn:Eb.
  2:{ simpl in H. injection H as <-.
      destruct (lookup_raise _ _ _ _ _ _ _ Eb) as (-> & _ & Hl).
      { rewrite (lookup_other_caches _ _ _ _ _ _ _ _ _ _ _ Bass Em) by done.
        apply Hk. }
      pose proof (gen_index_lt_3 Bass). split; [done|lia]. }
  simpl in H.
  destruct (lookup_or_generate' Drums part env captured tb stb)
    as [[[sd td] std]|e1] eqn:Ed.
  2:{ simpl in H. injection H as <-.
      destruct (lookup_raise _ _ _ _ _ _ _ Ed) as (-> & _ & Hl).
      { rewrite (lookup_other_caches _ _ _ _ _ _ _ _ _ _ _ Drums Eb) by done.
        rewrite (lookup_other_caches _ _ _ _ _ _ _ _ _ _ _ Drums Em) by done.
        apply Hk. }
      pose proof (gen_index_lt_3 Drums). split; [done|lia]. }
  simpl in H. discriminate.
Qed.

(** In a response that was prepared, every track that missed found its
    generator. *)
Lemma prepare_found_generators env part captured st r0 st1 tr :
  prepare_response' env part captured st = Ok (r0, st1) ->
  get_cache tr (caches st) !! name part = Some None ->
  (gen_index tr < length _sequence_generators)%nat.
Proof.
  unfold prepare_response. intros H Hs.
  bind_inv H. destruct a as [[sm tm] stm].
  bind_inv H. destruct a as [[sb tb] stb].
  bind_inv H. destruct a as [[sd td] std].
  pose proof (fun tr' => lookup_other_caches _ _ _ _ _ _ _ _ _ _ _ tr' E) as Om.
  pose proof (fun tr' => lookup_other_caches _ _ _ _ _ _ _ _ _ _ _ tr' E0) as Ob.
  apply lookup_inv in E, E0, E1. cbv zeta in *.
  destruct E as (_ & _ & _ & Cm), E0 as (_ & _ & _ & Cb),
           E1 as (_ & _ & _ & Cd).
  destruct tr.
  - destruct Cm as [(it & Hit & _)|(_ & _ & g & Hg & _)]; [congruence|].
    eapply lookup_lt_Some; eauto.
  - rewrite <- (Om Bass) in Hs by done.
    destruct Cb as [(it & Hit & _)|(_ & _ & g & Hg & _)]; [congruence|].
    eapply lookup_lt_Some; eauto.
  - rewrite <- (Om Drums), <- (Ob Drums) in Hs by done.
    destruct Cd as [(it & Hit & _)|(_ & _ & g & Hg & _)]; [congruence|].
    eapply lookup_lt_Some; eauto.
Qed.

(** X14: a missing generator is noticed only when it is needed: a tick
    at the start of a part whose cache slot for some track is empty,
    with no generator at that track's index, raises [IndexError]. *)
Theorem missing_generator_raises st env part tr :
  stop_is_set env = false ->
  snd (advance_part st) = 0%Z ->
  STRUCTURE !! fst (advance_part st) = Some part ->
  (forall tr', is_Some (get_cache tr' (caches st) !! name part)) ->
  get_cache tr (caches st) !! name part = Some None ->
  (length _sequence_generators <= gen_index tr)%nat ->
  tick' st env = Raise IndexError.
Proof.
  intros Hs Hb Hp Hk Hslot Hlen.
  destruct (handle_panic_keeps st) as (Kc & _ & Ki & Kb & _).
  unfold tick. rewrite Hs.
  destruct (advance_part (handle_panic st)) as [i b] eqn:Ea.
  simpl in Ki, Kb. rewrite Hb in Kb. subst b. rewrite <- Ki in Hp.
  assert (Hl : (i < length STRUCTURE)%nat) by (eapply lookup_lt_Some; eauto).
  apply Nat.leb_gt in Hl. rewrite Hl.
  unfold getitem. rewrite Hp. simpl.
  unfold start_of_part_work.
  destruct (prepare_response' env part (stamp_tempo _default_qpm env) _)
    as [[r0 st1]|e] eqn:Eprep.
  - exfalso.
    pose proof (prepare_found_generators _ _ _ _ _ _ tr Eprep) as Hf.
    simpl in Hf. rewrite Kc in Hf. specialize (Hf Hslot). lia.
  - simpl. apply prepare_raise in Eprep as (-> & _); [done|].
    simpl. by rewrite Kc.
Qed.

(** X15: a tick at the start of a part whose time equals the time of
    the previous tick divides by a zero [tick_duration]: when the
    response is prepared and the clock is not behind its start time,
    the tick raises [ZeroDivisionError]. *)
Theorem zero_tick_duration_raises st env part r0 st1 :
  stop_is_set env = false ->
  snd (advance_part st) = 0%Z ->
  STRUCTURE !! fst (advance_part st) = Some part ->
  total_time (captured_sequence env) == last_tick_time st ->
  prepare_response' env part (stamp_tempo _default_qpm env)
    (bookkeeping (handle_panic st) (total_time (captured_sequence env))
       (fst (advance_part st)) 0 part) = Ok (r0, st1) ->
  r_start_time r0 <= time_check env ->
  tick' st env = Raise ZeroDivisionError.
Proof.
  intros Hs Hb Hp Hz Hprep Hclock.
  destruct (handle_panic_keeps st) as (Kc & _ & Ki & Kb & Kt).
  unfold tick. rewrite Hs.
  destruct (advance_part (handle_panic st)) as [i b] eqn:Ea.
  simpl in Ki, Kb. rewrite Hb in Kb. subst b. rewrite <- Ki in Hp, Hprep.
  assert (Hl : (i < length STRUCTURE)%nat) by (eapply lookup_lt_Some; eauto).
  apply Nat.leb_gt in Hl. rewrite Hl.
  unfold getitem. rewrite Hp. simpl.
  unfold start_of_part_work. rewrite Hprep. simpl.
  unfold latency_push.
  assert (Hd : total_time (captured_sequence env)
               - last_tick_time (handle_panic st) == 0)
    by (rewrite Kt; lra).
  destruct (Qle_bool _ _) eqn:El.
  - unfold floordiv.
    destruct (Qeq_bool _ 0) eqn:Ez; [reflexivity|].
    apply Qeq_bool_neq in Ez. contradiction.
  - exfalso. assert (Hle : (total_time (captured_sequence env)
                            - last_tick_time (handle_panic st)) / 4
                           <= time_check env - r_start_time r0).
    { apply Qle_shift_div_r; [reflexivity|lra]. }
    apply Qle_bool_iff in Hle. congruence.
Qed.

End LoopErrors.


(** ** The anchors of a part *)

Lemma coherent_same_lookup (c c' : Caches) (key : string) :
  (forall tr, get_cache tr c' !! key = get_cache tr c !! key) ->
  ((forall tr, get_cache tr c !! key = None)
   \/ (forall tr, get_cache tr c !! key = Some None)
   \/ (exists t, forall tr,
         exists item,
           get_cache tr c !! key = Some (Some item)
           /\ item_response_start_time item = t)) ->
  (forall tr, get_cache tr c' !! key = None)
  \/ (forall tr, get_cache tr c' !! key = Some None)
  \/ (exists t, forall tr,
        exists item,
          get_cache tr c' !! key = Some (Some item)
          /\ item_response_start_time item = t).
Proof.
  intros Hs [H|[H|(t & H)]].
  - left. intros tr. by rewrite Hs.
  - right; left. intros tr. by rewrite Hs.
  - right; right. exists t. intros tr. rewrite Hs. apply H.
Qed.

(** The caches that the constructor makes are coherent. *)
Lemma fresh_caches_coherent (structure : list Part) :
  coherent (mkCaches (dict_of_names structure) (dict_of_names structure)
              (dict_of_names structure)).
Proof.
  intros key.
  assert (Hk : dict_of_names structure !! key
               = if decide (key ∈ map name structure) then Some None else None).
  { unfold dict_of_names. rewrite dict_of_names_lookup.
    by rewrite lookup_empty. }
  case_decide.
  - right; left. by intros [].
  - left. by intros [].
Qed.

Section Anchors.

Variable _sequence_generators : list Generator.
Variable _default_qpm : Q.
Variable STRUCTURE : list Part.
Variable trim_note_sequence : NoteSequence -> Q -> Q -> NoteSequence.
Variable add_track_to_sequence : NoteSequence -> Z -> list Note -> NoteSequence.

Local Abbreviation tick' :=
  (tick _sequence_generators _default_qpm STRUCTURE trim_note_sequence
     add_track_to_sequence).
Local Abbreviation iterations' :=
  (iterations _sequence_generators _default_qpm STRUCTURE trim_note_sequence
     add_track_to_sequence).
Local Abbreviation prepare_response' :=
  (prepare_response _sequence_generators trim_note_sequence
     add_track_to_sequence).

(** On coherent caches the three cache blocks all hit, on one anchor, or
    all miss, with the start time of the tick. *)
Lemma prepare_all_or_none env part captured st r0 st1 :
  prepare_response' env part captured st = Ok (r0, st1) ->
  coherent (caches st) ->
  coherent (caches st1)
  /\ ((exists t,
         (forall tr, exists item,
             get_cache tr (caches st) !! name part = Some (Some item)
             /\ item_response_start_time item = t)
         /\ r_start_time r0 = t
         /\ generator_log st1 = generator_log st)
      \/ ((forall tr, get_cache tr (caches st) !! name part = Some None)
          /\ r_start_time r0 = response_start_time st
          /\ generator_log st1
             = generator_log st
               ++ [miss_call Melody env captured (response_start_time st)
                     (response_duration st);
                   miss_call Bass env captured (response_start_time st)
                     (response_duration st);
                   miss_call Drums env captured (response_start_time st)
                     (response_duration st)])).
Proof.
  intros H Hco. apply prepare_response_inv in H. cbv zeta in H.
  destruct H as (Hs & Hl & _ & _ & _ & Hslots).
  destruct (Hco (name part)) as [Hn|[Hn|(t & Hf)]].
  - destruct (Hslots Melody) as [(it & Hit & _)|(Hit & _)];
      rewrite (Hn Melody) in Hit; discriminate.
  - (* three misses *)
    split.
    + intros key. destruct (decide (key = name part)) as [->|Hne].
      * right; right. exists (captor_start_time env). intros tr.
        destruct (Hslots tr) as [(it & Hit & _)|(_ & ->)].
        { rewrite (Hn tr) in Hit. discriminate. }
        rewrite lookup_insert_eq. eauto.
      * apply (coherent_same_lookup (caches st)); [|apply Hco].
        intros tr.
        destruct (Hslots tr) as [(it & Hit & _)|(_ & ->)].
        { rewrite (Hn tr) in Hit. discriminate. }
        by rewrite lookup_insert_ne.
    + right. split; [exact Hn|].
      rewrite (Hn Melody), (Hn Bass), (Hn Drums) in Hs, Hl. simpl in Hs, Hl.
      split; [exact Hs|exact Hl].
  - (* three hits *)
    split.
    + intros key. apply (coherent_same_lookup (caches st)); [|apply Hco].
      intros tr.
      destruct (Hslots tr) as [(it & _ & _ & ->)|(Hit & _)]; [done|].
      destruct (Hf tr) as (it' & Hit' & _). congruence.
    + left. exists t. split; [exact Hf|].
      destruct (Hf Melody) as (im & Hm & Am), (Hf Bass) as (ib & Hb & Ab),
        (Hf Drums) as (id & Hd & Ad).
      rewrite Hm, Hb, Hd in Hs, Hl. simpl in Hs, Hl.
      rewrite !app_nil_r in Hl. split; [congruence|exact Hl].
Qed.

Lemma latency_coherent env part tick_duration r0 r :
  latency_push env part tick_duration r0 = Ok r ->
  coherent (r_caches r0) -> coherent (r_caches r).
Proof.
  intros H Hco. apply latency_push_inv in H. cbv zeta in H.
  destruct H as [(_ & ->)|(_ & _ & _ & _ & _ & _ & _ & Hre)]; [done|].
  intros key. destruct (decide (key = name part)) as [->|Hne].
  - right; right.
    exists (r_start_time r0
            + spec_push_ticks env tick_duration r0 * tick_duration).
    intros tr.
    destruct (Hre tr) as (it & _ & ->). rewrite lookup_insert_eq.
    eexists. split; reflexivity.
  - apply (coherent_same_lookup (r_caches r0)); [|apply Hco].
    intros tr. destruct (Hre tr) as (it & _ & ->).
    by rewrite lookup_insert_ne.
Qed.

Lemma tick_coherent st env o :
  tick' st env = Ok o ->
  coherent (caches st) -> coherent (caches (state_of o)).
Proof.
  intros H Hco. destruct (handle_panic_keeps st) as (Kc & _).
  destruct o as [st'|st'].
  - apply tick_continue_inv in H. cbv zeta in H.
    destruct H as (_ & part & _ & [(_ & ->)|(_ & r0 & st1 & r & Hp & Hl & ->)]);
      simpl.
    + by rewrite Kc.
    + pose proof (prepare_response_inv _ _ _ _ _ _ _ _ _ Hp) as Hinv.
      cbv zeta in Hinv. destruct Hinv as (_ & _ & _ & Hrc & _).
      apply prepare_all_or_none in Hp as (Hc1 & _).
      * eapply latency_coherent; [exact Hl|]. by rewrite Hrc.
      * simpl. by rewrite Kc.
  - apply tick_break_inv in H. simpl.
    by destruct H as [(_ & ->)|(_ & _ & _ & _ & _ & -> & _)].
Qed.

(** X16: the three caches stay coherent along the loop: started on
    caches where, for every name, the melody, bass and drum slots are
    all absent, all empty or all filled with one anchor (as after the
    constructor), every state the loop reaches has such caches.  Two
    tracks of a part never hold different anchors. *)
Theorem anchors_stay_equal ticks : forall st o,
  coherent (caches st) ->
  iterations' st ticks = Ok o ->
  coherent (caches (state_of o)).
Proof.
  induction ticks as [|env rest IH]; intros st o Hco H; simpl in H.
  - by injection H as <-.
  - destruct (deliver_signals_keeps env st) as (Dc & _).
    destruct (tick' (deliver_signals env st) env) as [[st1|st1]|e] eqn:Et;
      [| |discriminate].
    + apply (IH st1 o); [|exact H].
      apply tick_coherent in Et; [exact Et|by rewrite Dc].
    + injection H as <-.
      apply tick_coherent in Et; [exact Et|by rewrite Dc].
Qed.

(** X17: on coherent caches a tick at the start of a part either finds
    the three tracks in the cache, calls no generator and takes their
    common anchor as start time, or finds none, and calls the three
    generators in the order melody, bass, drums with one and the same
    window, starting at the tick time. *)
Theorem start_of_part_hits_all_or_none st env st' :
  coherent (caches st) ->
  tick' st env = Ok (Continue st') ->
  snd (advance_part st) = 0%Z ->
  let tick_time := total_time (captured_sequence env) in
  let captured := stamp_tempo _default_qpm env in
  exists part,
    STRUCTURE !! fst (advance_part st) = Some part
    /\ let d := inject_Z (duration part) * (tick_time - last_tick_time st) in
       (exists t,
          (forall tr, exists item,
              get_cache tr (caches st) !! name part = Some (Some item)
              /\ item_response_start_time item = t)
          /\ generator_log st' = generator_log st)
       \/ ((forall tr, get_cache tr (caches st) !! name part = Some None)
           /\ generator_log st'
              = generator_log st
                ++ [miss_call Melody env captured tick_time d;
                    miss_call Bass env captured tick_time d;
                    miss_call Drums env captured tick_time d]).
Proof.
  intros Hco H Hb. destruct (handle_panic_keeps st) as (Kc & Kl & Ki & Kb & Kt).
  rewrite <- Kb in Hb.
  destruct (tick_start_of_part _ _ _ _ _ _ _ _ H Hb)
    as (part & r0 & st1 & r & Hp & Hprep & _ & _ & _ & _ & Hlog & _).
  rewrite Ki in Hp. exists part. split; [exact Hp|].
  apply prepare_all_or_none in Hprep as (_ & Hcase).
  2:{ simpl. by rewrite Kc. }
  simpl in Hcase. rewrite Kc, Kl, Kt in Hcase. rewrite Hlog.
  destruct Hcase as [(t & Hf & _ & Hl)|(Hn & _ & Hl)].
  - left. exists t. auto.
  - right. auto.
Qed.

End Anchors.

(** ** The schedule of the parts *)

Lemma count_ticks_app structure n : forall c m,
  count_ticks structure c (n + m)
  = match count_ticks structure c n with
    | Some c' => count_ticks structure c' m
    | None => None
    end.
Proof.
  induction n as [|n IH]; intros c m; simpl.
  - reflexivity.
  - destruct (count_tick structure c) as [c'|]; [apply IH|reflexivity].
Qed.

(** Inside a part every tick counts one bar. *)
Lemma count_ticks_within structure i part k : forall b,
  structure !! i = Some part ->
  (k <= Z.to_nat (duration part + 1 - b))%nat ->
  count_ticks structure (i, b, duration part) k
  = Some (i, (b + Z.of_nat k)%Z, duration part).
Proof.
  induction k as [|k IH]; intros b Hp Hk.
  - simpl. by rewrite Z.add_0_r.
  - cbn [count_ticks]. unfold count_tick.
    destruct (duration part <? b)%Z eqn:E; [apply Z.ltb_lt in E; lia|].
    rewrite Hp. rewrite IH; [|done|lia]. do 3 f_equal. lia.
Qed.

(** The tick after the last bar of a part enters the next part, or
    leaves the structure. *)
Lemma count_tick_next structure i d :
  count_tick structure (i, (1 + Z.of_nat (Z.to_nat d))%Z, d)
  = match structure !! S i with
    | Some part => Some (S i, 1%Z, duration part)
    | None => None
    end.
Proof.
  unfold count_tick.
  destruct (d <? 1 + Z.of_nat (Z.to_nat d))%Z eqn:E;
    [|apply Z.ltb_ge in E; lia].
  by destruct (structure !! S i).
Qed.

Lemma ticks_before_S structure i part :
  structure !! i = Some part ->
  ticks_before structure (S i)
  = (ticks_before structure i + part_ticks part)%nat.
Proof.
  intros Hp. unfold ticks_before. rewrite (take_S_r _ _ _ Hp).
  rewrite sum_list_with_app. unfold part_ticks. simpl. lia.
Qed.

Lemma ticks_before_all structure :
  ticks_before structure (length structure) = total_ticks structure.
Proof. unfold ticks_before, total_ticks. by rewrite firstn_all. Qed.

(** The counters on the tick that starts part [i]. *)
Lemma count_ticks_start structure i : forall part,
  (forall p, structure !! 0%nat = Some p -> (0 <= duration p)%Z) ->
  structure !! i = Some part ->
  count_ticks structure (initial_counters structure)
    (ticks_before structure i + 1)
  = Some (i, 1%Z, duration part).
Proof.
  intros part H0. revert part.
  induction i as [|i IH]; intros part Hp.
  - destruct structure as [|p rest]; [discriminate|].
    injection Hp as ->. specialize (H0 part eq_refl).
    unfold ticks_before, initial_counters. simpl.
    destruct (duration part <? 0)%Z eqn:E; [apply Z.ltb_lt in E; lia|].
    reflexivity.
  - destruct (lookup_lt_is_Some_2 structure i) as [prev Hprev].
    { apply lookup_lt_Some in Hp. lia. }
    rewrite (ticks_before_S _ _ _ Hprev). unfold part_ticks.
    replace (ticks_before structure i + S (Z.to_nat (duration prev)) + 1)%nat
      with ((ticks_before structure i + 1)
            + (Z.to_nat (duration prev) + 1))%nat by lia.
    rewrite count_ticks_app, (IH prev Hprev).
    rewrite count_ticks_app, (count_ticks_within _ _ _ _ _ Hprev) by lia.
    cbn [count_ticks]. rewrite count_tick_next, Hp. reflexivity.
Qed.

(** The counters on any tick of part [i]. *)
Lemma count_ticks_schedule structure i part n :
  (forall p, structure !! 0%nat = Some p -> (0 <= duration p)%Z) ->
  structure !! i = Some part ->
  (ticks_before structure i < n <= ticks_before structure (S i))%nat ->
  count_ticks structure (initial_counters structure) n
  = Some (i, Z.of_nat (n - ticks_before structure i), duration part).
Proof.
  intros H0 Hp Hn. rewrite (ticks_before_S _ _ _ Hp) in Hn.
  unfold part_ticks in Hn.
  replace n with ((ticks_before structure i + 1)
                  + (n - ticks_before structure i - 1))%nat at 1 by lia.
  rewrite count_ticks_app, (count_ticks_start _ _ _ H0 Hp).
  rewrite (count_ticks_within _ _ _ _ _ Hp) by lia.
  do 3 f_equal. lia.
Qed.

(** The tick after the last part finds no part. *)
Lemma count_ticks_end structure last part :
  (forall p, structure !! 0%nat = Some p -> (0 <= duration p)%Z) ->
  structure !! last = Some part ->
  S last = length structure ->
  exists c,
    count_ticks structure (initial_counters structure) (total_ticks structure)
    = Some c
    /\ fst (fst c) = last
    /\ count_tick structure c = None.
Proof.
  intros H0 Hp Hl.
  rewrite <- ticks_before_all, <- Hl, (ticks_before_S _ _ _ Hp).
  unfold part_ticks.
  replace (ticks_before structure last + S (Z.to_nat (duration part)))%nat
    with ((ticks_before structure last + 1)
          + Z.to_nat (duration part))%nat by lia.
  rewrite count_ticks_app, (count_ticks_start _ _ _ H0 Hp).
  rewrite (count_ticks_within _ _ _ _ _ Hp) by lia.
  eexists. split; [reflexivity|]. split; [reflexivity|].
  rewrite count_tick_next.
  rewrite (lookup_ge_None_2 structure (S last)); [reflexivity|lia].
Qed.

Lemma advancing_app_inv l1 : forall last env l2,
  advancing last (l1 ++ env :: l2) -> stop_is_set env = false.
Proof.
  induction l1 as [|e l1 IH]; intros last env l2 H; simpl in H.
  - by destruct H.
  - destruct H as (_ & _ & H). eapply IH; eauto.
Qed.

Section Schedule.

Variable _sequence_generators : list Generator.
Variable _default_qpm : Q.
Variable STRUCTURE : list Part.
Variable trim_note_sequence : NoteSequence -> Q -> Q -> NoteSequence.
Variable add_track_to_sequence : NoteSequence -> Z -> list Note -> NoteSequence.

Local Abbreviation tick' :=
  (tick _sequence_generators _default_qpm STRUCTURE trim_note_sequence
     add_track_to_sequence).
Local Abbreviation iterations' :=
  (iterations _sequence_generators _default_qpm STRUCTURE trim_note_sequence
     add_track_to_sequence).

Lemma iterations_app l1 : forall st l2,
  iterations' st (l1 ++ l2)
  = match iterations' st l1 with
    | Ok (Continue st') => iterations' st' l2
    | stopped => stopped
    end.
Proof.
  induction l1 as [|env l1 IH]; intros st l2; simpl.
  - reflexivity.
  - destruct (tick' (deliver_signals env st) env) as [[st1|st1]|e];
      [apply IH|reflexivity|reflexivity].
Qed.

(** A tick that finds no part leaves the loop with the index past the
    structure and without counting a bar. *)
Lemma tick_past_the_end st env :
  stop_is_set env = false ->
  count_tick STRUCTURE (counters st) = None ->
  exists st',
    tick' st env = Ok (Break st')
    /\ part_in_song st' = fst (advance_part st)
    /\ (length STRUCTURE <= part_in_song st')%nat
    /\ bars_played st' = bars_played st.
Proof.
  intros Hs Hc.
  destruct (handle_panic_keeps st) as (_ & _ & Ki & Kb & _).
  assert (Kp : bars_played (handle_panic st) = bars_played st)
    by (unfold handle_panic; by destruct (panic st)).
  unfold count_tick, counters in Hc.
  assert (Ha : advance_part st
               = if (part_duration st <? bars_played_for_part st)%Z
                 then (S (part_in_song st), 0%Z)
                 else (part_in_song st, bars_played_for_part st))
    by reflexivity.
  rewrite <- Ha in Hc.
  destruct (advance_part st) as [i b] eqn:Eadv. simpl in Ki, Kb.
  destruct (STRUCTURE !! i) as [part|] eqn:Ep; [discriminate|].
  apply lookup_ge_None in Ep.
  unfold tick. rewrite Hs.
  destruct (advance_part (handle_panic st)) as [i' b'] eqn:E'.
  simpl in Ki, Kb. subst i' b'.
  apply Nat.leb_le in Ep. rewrite Ep. apply Nat.leb_le in Ep.
  eexists. split; [reflexivity|]. simpl. auto.
Qed.

Lemma run_init_counters self_caches now st0 :
  run_init STRUCTURE self_caches now = Ok st0 ->
  counters st0 = initial_counters STRUCTURE
  /\ caches st0 = self_caches
  /\ last_tick_time st0 = now
  /\ bars_played st0 = 0%Z
  /\ STRUCTURE <> [].
Proof.
  unfold run_init, getitem. intros H.
  destruct STRUCTURE as [|p rest]; [discriminate|].
  simpl in H. injection H as <-. by repeat split.
Qed.

(** Along ticks during which the loop goes on, [bars_played] grows by
    one per tick. *)
Lemma iterations_bars_played ticks : forall st st',
  iterations' st ticks = Ok (Continue st') ->
  bars_played st' = (bars_played st + Z.of_nat (length ticks))%Z.
Proof.
  induction ticks as [|env rest IH]; intros st st' H; simpl in H.
  - injection H as <-. simpl. lia.
  - assert (Dp : bars_played (deliver_signals env st) = bars_played st)
      by (unfold deliver_signals; by destruct (panic_received env)).
    destruct (tick' (deliver_signals env st) env) as [[st1|st1]|e] eqn:Et;
      [|discriminate|discriminate].
    apply tick_continue_inv in Et. cbv zeta in Et.
    destruct (handle_panic_keeps (deliver_signals env st))
      as (_ & _ & _ & _ & _).
    assert (Kp : bars_played (handle_panic (deliver_signals env st))
                 = bars_played st)
      by (unfold handle_panic, deliver_signals, _panic_callback, flush;
          by destruct (panic_received env), (panic st)).
    assert (Hb : bars_played st1 = (bars_played st + 1)%Z).
    { destruct Et as (_ & part & _ & [(_ & ->)|(_ & r0 & st2 & r & Hprep & _ & ->)]).
      - simpl. by rewrite Kp.
      - apply prepare_response_inv in Hprep. cbv zeta in Hprep.
        destruct Hprep as (_ & _ & Hf & _).
        destruct Hf as (_ & _ & _ & _ & _ & _ & _ & F8 & _).
        simpl in *. rewrite F8. by rewrite Kp. }
    rewrite (IH st1 st' H), Hb. simpl length. lia.
Qed.

(** X19: the schedule of the parts.  With three generators, a cache
    slot per part, tick times that move forward and a first part of
    non-negative length, part [i] holds [part_in_song] for
    [duration + 1] ticks (one tick for a part of negative length): after
    [n] ticks, [n] among the ticks of part [i], the loop goes on with
    [part_in_song = i] and [bars_played_for_part] the number of ticks
    spent in the part. *)
Theorem part_schedule self_caches now ticks st0 i part :
  (3 <= length _sequence_generators)%nat ->
  has_keys STRUCTURE self_caches ->
  (forall p, STRUCTURE !! 0%nat = Some p -> (0 <= duration p)%Z) ->
  run_init STRUCTURE self_caches now = Ok st0 ->
  advancing now ticks ->
  STRUCTURE !! i = Some part ->
  (ticks_before STRUCTURE i < length ticks
   <= ticks_before STRUCTURE (S i))%nat ->
  exists st,
    iterations' st0 ticks = Ok (Continue st)
    /\ part_in_song st = i
    /\ bars_played_for_part st
       = Z.of_nat (length ticks - ticks_before STRUCTURE i)
    /\ part_duration st = duration part.
Proof.
  intros Hg Hk H0 Hinit Hadv Hp Hn.
  destruct (run_init_counters _ _ _ Hinit) as (Hc & Hca & Ht & _).
  destruct (iterations_count _sequence_generators _default_qpm STRUCTURE
              trim_note_sequence add_track_to_sequence ticks st0
              (length ticks)
              (i, Z.of_nat (length ticks - ticks_before STRUCTURE i),
               duration part)) as (st & Hit & Hcs); try done.
  - by rewrite Ht.
  - by rewrite Hca.
  - rewrite Hc. by apply count_ticks_schedule.
  - exists st. split; [exact Hit|]. unfold counters in Hcs.
    by injection Hcs as -> -> ->.
Qed.

(** X20: the end of the song.  Under the same conditions the loop is
    left on tick [total_ticks + 1], the sum over the parts of
    [duration + 1] plus one: with more ticks than [total_ticks] the loop
    breaks with [part_in_song = len(STRUCTURE)], after [total_ticks]
    counted bars. *)
Theorem song_ends_after_total_ticks self_caches now ticks st0 :
  (3 <= length _sequence_generators)%nat ->
  has_keys STRUCTURE self_caches ->
  (forall p, STRUCTURE !! 0%nat = Some p -> (0 <= duration p)%Z) ->
  run_init STRUCTURE self_caches now = Ok st0 ->
  advancing now ticks ->
  (total_ticks STRUCTURE < length ticks)%nat ->
  exists st,
    iterations' st0 ticks = Ok (Break st)
    /\ part_in_song st = length STRUCTURE
    /\ bars_played st = Z.of_nat (total_ticks STRUCTURE).
Proof.
  intros Hg Hk H0 Hinit Hadv Hn.
  destruct (run_init_counters _ _ _ Hinit) as (Hc & Hca & Ht & Hb0 & Hne).
  destruct (lookup_lt_is_Some_2 STRUCTURE (length STRUCTURE - 1))
    as [part Hp].
  { destruct STRUCTURE; [done|simpl; lia]. }
  assert (Hl : S (length STRUCTURE - 1) = length STRUCTURE).
  { destruct STRUCTURE; [done|simpl; lia]. }
  destruct (count_ticks_end _ _ _ H0 Hp Hl) as (c & Hcnt & Hci & Hend).
  set (T := total_ticks STRUCTURE) in *.
  destruct (drop T ticks) as [|env rest] eqn:Ed.
  { apply (f_equal length) in Ed. rewrite length_drop in Ed. simpl in Ed. lia. }
  assert (Hsplit : ticks = take T ticks ++ env :: rest)
    by (by rewrite <- Ed, take_drop).
  destruct (iterations_count _sequence_generators _default_qpm STRUCTURE
              trim_note_sequence add_track_to_sequence (take T ticks) st0
              T c) as (st1 & Hit & Hcs); try done.
  - rewrite length_take. lia.
  - rewrite Ht. by apply advancing_take.
  - by rewrite Hca.
  - by rewrite Hc.
  - assert (Hs : stop_is_set env = false).
    { rewrite Hsplit in Hadv. eapply advancing_app_inv; eauto. }
    destruct (tick_past_the_end (deliver_signals env st1) env Hs)
      as (st & Htick & Hi & Hlen & Hbars).
    { rewrite <- Hend, <- Hcs. unfold deliver_signals, counters.
      by destruct (panic_received env). }
    exists st. rewrite Hsplit at 1. rewrite iterations_app, Hit.
    simpl. rewrite Htick. split; [reflexivity|].
    assert (Dp : bars_played (deliver_signals env st1) = bars_played st1)
      by (unfold deliver_signals; by destruct (panic_received env)).
    assert (Di : part_in_song (deliver_signals env st1) = part_in_song st1)
      by (unfold deliver_signals; by destruct (panic_received env)).
    split.
    + pose proof (advance_part_step (deliver_signals env st1)) as Hstep.
      rewrite Di in Hstep.
      assert (part_in_song st1 = (length STRUCTURE - 1)%nat).
      { rewrite <- Hci, <- Hcs. reflexivity. }
      lia.
    + rewrite Hbars, Dp.
      rewrite (iterations_bars_played _ _ _ Hit), Hb0, length_take.
      f_equal. lia.
Qed.

End Schedule.

(** ** The further properties at concrete inputs *)

Lemma caches_AB_has_keys : has_keys structure_AB caches_AB.
Proof. apply dict_of_names_has_keys. Qed.

Lemma caches_AB_slot tr key :
  key ∈ map name structure_AB -> get_cache tr caches_AB !! key = Some None.
Proof.
  intros Hin.
  assert (Hk : dict_of_names structure_AB !! key = Some None).
  { unfold dict_of_names. rewrite dict_of_names_lookup.
    by rewrite decide_True. }
  by destruct tr.
Qed.

Lemma first_tick_step :
  tick_AB start_AB first_tick_on_time = Ok (Continue after_first_tick).
Proof. vm_compute. reflexivity. Qed.

Lemma first_tick_runs :
  iterations_AB start_AB [first_tick_on_time] = Ok (Continue after_first_tick).
Proof. vm_compute. reflexivity. Qed.

Lemma one_tick_run :
  run three_generators 120 structure_AB magenta_trim_note_sequence
    magenta_add_track_to_sequence caches_AB 0 [first_tick_on_time]
  = Ok (stop_players after_first_tick).
Proof. vm_compute. reflexivity. Qed.

Lemma repeated_tick_prepared :
  prepare_response three_generators magenta_trim_note_sequence
    magenta_add_track_to_sequence repeated_tick part_A
    (stamp_tempo 120 repeated_tick)
    (bookkeeping (handle_panic start_AB)
       (total_time (captured_sequence repeated_tick))
       (fst (advance_part start_AB)) 0 part_A)
  = Ok (fst prepared_at_repeated_tick, snd prepared_at_repeated_tick).
Proof.
  destruct (prepare_total three_generators magenta_trim_note_sequence
              magenta_add_track_to_sequence repeated_tick part_A
              (stamp_tempo 120 repeated_tick)
              (bookkeeping (handle_panic start_AB)
                 (total_time (captured_sequence repeated_tick))
                 (fst (advance_part start_AB)) 0 part_A))
    as (r0 & st1 & H).
  - intros tr. exists None. apply (caches_AB_slot tr "A"). repeat constructor.
  - simpl. lia.
  - unfold prepared_at_repeated_tick. rewrite H. reflexivity.
Qed.

Lemma temperature_range_witness :
  (0 <= 64 <= 100)%Z /\ (100 <= 127)%Z
  /\ (1 # 10) <= _temperature (Some 64%Z)
  /\ _temperature (Some 64%Z) <= _temperature (Some 100%Z)
  /\ _temperature (Some 100%Z) <= 2.
Proof.
  assert (H1 : (0 <= 64 <= 100)%Z) by lia.
  assert (H2 : (100 <= 127)%Z) by lia.
  split; [exact H1|]. split; [exact H2|].
  destruct (temperature_range 64 100 H1 H2) as (Ha & Hb & Hc & _).
  split; [exact Ha|]. split; [exact Hb|exact Hc].
Defined.

Lemma part_in_song_monotone_witness :
  iterations_AB start_AB [first_tick_on_time] = Ok (Continue after_first_tick)
  /\ (part_in_song start_AB < length structure_AB)%nat
  /\ (part_in_song start_AB <= part_in_song after_first_tick
      <= part_in_song start_AB + 1)%nat.
Proof.
  assert (H2 : (part_in_song start_AB < length structure_AB)%nat)
    by (simpl; lia).
  split; [exact first_tick_runs|]. split; [exact H2|].
  exact (proj1 (part_in_song_monotone three_generators 120 structure_AB
                  magenta_trim_note_sequence magenta_add_track_to_sequence
                  [first_tick_on_time] start_AB (Continue after_first_tick)
                  first_tick_runs H2)).
Defined.

Lemma bars_played_counts_ticks_witness :
  iterations_AB start_AB [first_tick_on_time] = Ok (Continue after_first_tick)
  /\ bars_played after_first_tick = (bars_played start_AB + 1)%Z.
Proof.
  split; [exact first_tick_runs|].
  exact (bars_played_counts_ticks three_generators 120 structure_AB
           magenta_trim_note_sequence magenta_add_track_to_sequence
           [first_tick_on_time] start_AB (Continue after_first_tick)
           first_tick_runs).
Defined.

Lemma generator_calls_of_a_tick_witness :
  tick_AB start_AB first_tick_on_time = Ok (Continue after_first_tick)
  /\ exists new,
       generator_log after_first_tick = generator_log start_AB ++ new
       /\ map call_gen_index new `sublist_of` [0; 1; 2]%nat.
Proof.
  split; [exact first_tick_step|].
  destruct (generator_calls_of_a_tick three_generators 120 structure_AB
              magenta_trim_note_sequence magenta_add_track_to_sequence
              start_AB first_tick_on_time (Continue after_first_tick)
              first_tick_step) as (new & Hlog & Hsub & _).
  exists new. split; [exact Hlog|exact Hsub].
Defined.

Lemma run_stops_every_player_witness :
  run three_generators 120 structure_AB magenta_trim_note_sequence
    magenta_add_track_to_sequence caches_AB 0 [first_tick_on_time]
  = Ok (stop_players after_first_tick)
  /\ Forall (fun log =>
               exists updates,
                 log = StartPlayback empty_sequence :: updates ++ [StopPlayer]
                 /\ Forall is_update updates)
       (player_logs (players (stop_players after_first_tick))).
Proof.
  split; [exact one_tick_run|].
  exact (run_stops_every_player three_generators 120 structure_AB
           magenta_trim_note_sequence magenta_add_track_to_sequence
           caches_AB 0 [first_tick_on_time] (stop_players after_first_tick)
           one_tick_run).
Defined.

Lemma missing_generator_raises_witness :
  stop_is_set first_tick_on_time = false
  /\ snd (advance_part start_AB) = 0%Z
  /\ structure_AB !! fst (advance_part start_AB) = Some part_A
  /\ get_cache Drums (caches start_AB) !! name part_A = Some None
  /\ (length [drone_generator 72; drone_generator 36] <= gen_index Drums)%nat
  /\ tick [drone_generator 72; drone_generator 36] 120 structure_AB
       magenta_trim_note_sequence magenta_add_track_to_sequence start_AB
       first_tick_on_time = Raise IndexError.
Proof.
  assert (H1 : stop_is_set first_tick_on_time = false) by reflexivity.
  assert (H2 : snd (advance_part start_AB) = 0%Z) by reflexivity.
  assert (H3 : structure_AB !! fst (advance_part start_AB) = Some part_A)
    by reflexivity.
  assert (Hin : name part_A ∈ map name structure_AB) by (repeat constructor).
  assert (H4 : forall tr,
             is_Some (get_cache tr (caches start_AB) !! name part_A)).
  { intros tr. exists None. exact (caches_AB_slot tr (name part_A) Hin). }
  assert (H5 : get_cache Drums (caches start_AB) !! name part_A = Some None)
    by exact (caches_AB_slot Drums (name part_A) Hin).
  assert (H6 : (length [drone_generator 72; drone_generator 36]
                <= gen_index Drums)%nat) by (simpl; lia).
  split; [exact H1|]. split; [exact H2|]. split; [exact H3|].
  split; [exact H5|]. split; [exact H6|].
  exact (missing_generator_raises [drone_generator 72; drone_generator 36]
           120 structure_AB magenta_trim_note_sequence
           magenta_add_track_to_sequence start_AB first_tick_on_time part_A
           Drums H1 H2 H3 H4 H5 H6).
Defined.

Lemma zero_tick_duration_raises_witness :
  stop_is_set repeated_tick = false
  /\ snd (advance_part start_AB) = 0%Z
  /\ structure_AB !! fst (advance_part start_AB) = Some part_A
  /\ total_time (captured_sequence repeated_tick) == last_tick_time start_AB
  /\ r_start_time (fst prepared_at_repeated_tick) <= time_check repeated_tick
  /\ tick_AB start_AB repeated_tick = Raise ZeroDivisionError.
Proof.
  assert (H1 : stop_is_set repeated_tick = false) by reflexivity.
  assert (H2 : snd (advance_part start_AB) = 0%Z) by reflexivity.
  assert (H3 : structure_AB !! fst (advance_part start_AB) = Some part_A)
    by reflexivity.
  assert (H4 : total_time (captured_sequence repeated_tick)
               == last_tick_time start_AB) by reflexivity.
  assert (H5 : r_start_time (fst prepared_at_repeated_tick)
               <= time_check repeated_tick) by (vm_compute; discriminate).
  split; [exact H1|]. split; [exact H2|]. split; [exact H3|].
  split; [exact H4|]. split; [exact H5|].
  exact (zero_tick_duration_raises three_generators 120 structure_AB
           magenta_trim_note_sequence magenta_add_track_to_sequence start_AB
           repeated_tick part_A (fst prepared_at_repeated_tick)
           (snd prepared_at_repeated_tick) H1 H2 H3 H4
           repeated_tick_prepared H5).
Defined.

Lemma anchors_stay_equal_witness :
  coherent (caches start_AB)
  /\ iterations_AB start_AB [first_tick_on_time]
     = Ok (Continue after_first_tick)
  /\ coherent (caches after_first_tick).
Proof.
  assert (H1 : coherent (caches start_AB))
    by exact (fresh_caches_coherent structure_AB).
  split; [exact H1|]. split; [exact first_tick_runs|].
  exact (anchors_stay_equal three_generators 120 structure_AB
           magenta_trim_note_sequence magenta_add_track_to_sequence
           [first_tick_on_time] start_AB (Continue after_first_tick)
           H1 first_tick_runs).
Defined.

Lemma start_of_part_hits_all_or_none_witness :
  coherent (caches start_AB)
  /\ tick_AB start_AB first_tick_on_time = Ok (Continue after_first_tick)
  /\ snd (advance_part start_AB) = 0%Z
  /\ exists part, structure_AB !! fst (advance_part start_AB) = Some part.
Proof.
  assert (H1 : coherent (caches start_AB))
    by exact (fresh_caches_coherent structure_AB).
  assert (H3 : snd (advance_part start_AB) = 0%Z) by reflexivity.
  split; [exact H1|]. split; [exact first_tick_step|]. split; [exact H3|].
  destruct (start_of_part_hits_all_or_none three_generators 120 structure_AB
              magenta_trim_note_sequence magenta_add_track_to_sequence
              start_AB first_tick_on_time after_first_tick H1
              first_tick_step H3) as (part & Hp & _).
  exists part. exact Hp.
Defined.

Lemma part_schedule_witness :
  (3 <= length three_generators)%nat
  /\ has_keys structure_AB caches_AB
  /\ (forall p, structure_AB !! 0%nat = Some p -> (0 <= duration p)%Z)
  /\ run_init structure_AB caches_AB 0 = Ok start_AB
  /\ advancing 0 (ticks_from 1 6 (1 # 10))
  /\ structure_AB !! 1%nat = Some part_B
  /\ (ticks_before structure_AB 1 < length (ticks_from 1 6 (1 # 10))
      <= ticks_before structure_AB 2)%nat
  /\ exists st,
       iterations_AB start_AB (ticks_from 1 6 (1 # 10)) = Ok (Continue st)
       /\ part_in_song st = 1%nat.
Proof.
  assert (H1 : (3 <= length three_generators)%nat) by (simpl; lia).
  assert (H3 : forall p, structure_AB !! 0%nat = Some p -> (0 <= duration p)%Z).
  { intros p Hp. injection Hp as <-. simpl. lia. }
  assert (H4 : run_init structure_AB caches_AB 0 = Ok start_AB)
    by reflexivity.
  assert (H5 : advancing 0 (ticks_from 1 6 (1 # 10))).
  { simpl. repeat split. }
  assert (H6 : structure_AB !! 1%nat = Some part_B) by reflexivity.
  assert (H7 : (ticks_before structure_AB 1 < length (ticks_from 1 6 (1 # 10))
                <= ticks_before structure_AB 2)%nat).
  { vm_compute. lia. }
  split; [exact H1|]. split; [exact caches_AB_has_keys|].
  split; [exact H3|]. split; [exact H4|]. split; [exact H5|].
  split; [exact H6|]. split; [exact H7|].
  destruct (part_schedule three_generators 120 structure_AB
              magenta_trim_note_sequence magenta_add_track_to_sequence
              caches_AB 0 (ticks_from 1 6 (1 # 10)) start_AB 1%nat part_B
              H1 caches_AB_has_keys H3 H4 H5 H6 H7) as (st & Hit & Hp & _).
  exists st. split; [exact Hit|exact Hp].
Defined.

Lemma song_ends_after_total_ticks_witness :
  (3 <= length three_generators)%nat
  /\ has_keys structure_AB caches_AB
  /\ (forall p, structure_AB !! 0%nat = Some p -> (0 <= duration p)%Z)
  /\ run_init structure_AB caches_AB 0 = Ok start_AB
  /\ advancing 0 (ticks_from 1 9 (1 # 10))
  /\ (total_ticks structure_AB < length (ticks_from 1 9 (1 # 10)))%nat
  /\ exists st,
       iterations_AB start_AB (ticks_from 1 9 (1 # 10)) = Ok (Break st)
       /\ part_in_song st = 2%nat
       /\ bars_played st = 8%Z.
Proof.
  assert (H1 : (3 <= length three_generators)%nat) by (simpl; lia).
  assert (H3 : forall p, structure_AB !! 0%nat = Some p -> (0 <= duration p)%Z).
  { intros p Hp. injection Hp as <-. simpl. lia. }
  assert (H4 : run_init structure_AB caches_AB 0 = Ok start_AB)
    by reflexivity.
  assert (H5 : advancing 0 (ticks_from 1 9 (1 # 10))).
  { simpl. repeat split. }
  assert (H6 : (total_ticks structure_AB
                < length (ticks_from 1 9 (1 # 10)))%nat).
  { vm_compute. lia. }
  split; [exact H1|]. split; [exact caches_AB_has_keys|].
  split; [exact H3|]. split; [exact H4|]. split; [exact H5|].
  split; [exact H6|].
  exact (song_ends_after_total_ticks three_generators 120 structure_AB
           magenta_trim_note_sequence magenta_add_track_to_sequence
           caches_AB 0 (ticks_from 1 9 (1 # 10)) start_AB
           H1 caches_AB_has_keys H3 H4 H5 H6).
Defined.

(** * The claims that depend on the float arithmetic *)

Import PrimFloat.



Lemma floordiv_by_zero (vx wx : float) :
  (wx =? 0)%float = true -> Binary64.floordiv vx wx = Raise ZeroDivisionError.
Proof. intros H. unfold Binary64.floordiv. by rewrite H. Qed.

(** The values of CPython for some floor divisions.  The floor division
    is not the floor of the rounded quotient: [1.0 / 0.1] rounds to 10. *)
Lemma floordiv_values :
  Binary64.floordiv 1 0.1 = Ok 9%float
  /\ Binary64.floor (1 / 0.1) = 10%float
  /\ Binary64.floordiv 0.3 0.1 = Ok 2%float
  /\ Binary64.floordiv 7 2 = Ok 3%float
  /\ Binary64.floordiv (-7) 2 = Ok (-4)%float
  /\ Binary64.floordiv 1 0 = Raise ZeroDivisionError.
Proof. repeat split; vm_compute; reflexivity. Qed.






